(** * Session-log server ([serve.js]): a shallow embedding and its properties

    The development follows the layout of the program.

    - [JS] holds the pieces of the JavaScript runtime the program calls:
      strings as sequences of UTF-16 code units, [String.prototype.replace]
      with a string pattern, [trim], [startsWith]/[endsWith], the default
      [Array.prototype.sort], [decodeURIComponent], [path.basename] and the
      UTF-8 encoder behind [Buffer.from].
    - [RegExp] is a backtracking matcher for the fragment of ECMAScript
      regular expressions that the file-name pattern uses.
    - [Serve] is the program itself: the two templates, [escapeHtml],
      [parseLogName], [buildIndex] and the request handler of [main].
    - [Grammar] restates the naming grammar of the specification.

    The lemmas and theorems come after the definitions. *)

From Stdlib Require Import String Ascii.
From Stdlib Require Import NArith ZArith Arith Bool Lia.
From Stdlib Require Import List Sorted Permutation.
Import ListNotations.

Set Implicit Arguments.

(** ** The JavaScript runtime *)

Module JS.

(** A string is a sequence of UTF-16 code units. *)
Definition jschar := N.
Definition jsstring := list jschar.

(** Literals of the source text are ASCII; [lit] reads one. *)
Definition lit (s : string) : jsstring :=
  map N_of_ascii (list_ascii_of_string s).
Arguments lit s%_string.

Definition Q : string := String (ascii_of_nat 34) EmptyString.
Definition LF : jschar := 10%N.

Fixpoint join (sep : jsstring) (parts : list jsstring) : jsstring :=
  match parts with
  | [] => []
  | [p] => p
  | p :: ps => p ++ sep ++ join sep ps
  end.

(** A template literal written over several lines. *)
Definition lines (ls : list string) : jsstring := join [LF] (map lit ls).

(** The values the program handles besides numbers: [undefined], [null]
    and strings. *)
Inductive jsval :=
| JUndefined
| JNull
| JStr (s : jsstring).

(** [ToBoolean]. *)
Definition truthy (v : jsval) : bool :=
  match v with
  | JStr (_ :: _) => true
  | _ => false
  end.

(** [ToString], as applied by template literals and by [+]. *)
Definition toString (v : jsval) : jsstring :=
  match v with
  | JUndefined => lit "undefined"
  | JNull => lit "null"
  | JStr s => s
  end.

(** [a || b]. *)
Definition js_or (a b : jsval) : jsval := if truthy a then a else b.

Fixpoint str_eqb (a b : jsstring) : bool :=
  match a, b with
  | [], [] => true
  | x :: a', y :: b' => N.eqb x y && str_eqb a' b'
  | _, _ => false
  end.

(** [s.startsWith(p)] *)
Fixpoint startsWith (p s : jsstring) : bool :=
  match p, s with
  | [], _ => true
  | a :: p', b :: s' => N.eqb a b && startsWith p' s'
  | _ :: _, [] => false
  end.

(** [s.endsWith(p)] *)
Definition endsWith (p s : jsstring) : bool :=
  (length p <=? length s) && str_eqb (skipn (length s - length p) s) p.

(** [s.slice(a, b)] and [s.slice(a)] for indices inside the string. *)
Definition slice (a b : nat) (s : jsstring) : jsstring := firstn (b - a) (skipn a s).
Definition sliceFrom (a : nat) (s : jsstring) : jsstring := skipn a s.

(** The first occurrence of [pat] in [s]: the text before it and the text
    after it ([StringIndexOf] from position 0). *)
Fixpoint splitFirst (pat s : jsstring) : option (jsstring * jsstring) :=
  if startsWith pat s then Some ([], skipn (length pat) s)
  else match s with
       | [] => None
       | c :: s' =>
           match splitFirst pat s' with
           | Some (before, after) => Some (c :: before, after)
           | None => None
           end
       end.

(** [s.includes(pat)] *)
Definition includes (pat s : jsstring) : bool :=
  match splitFirst pat s with Some _ => true | None => false end.

(** [GetSubstitution] for a string pattern, which has no capture groups:
    in the replacement text [$$] stands for a dollar sign, [$&] for the
    matched text, [$`] for the text before the match and [$'] for the text
    after it; a dollar sign followed by anything else stands for itself. *)
Fixpoint getSubstitution (matched before after repl : jsstring) : jsstring :=
  match repl with
  | [] => []
  | c :: r =>
      if N.eqb c 36 then
        match r with
        | [] => [c]
        | d :: r' =>
            if N.eqb d 36 then 36%N :: getSubstitution matched before after r'
            else if N.eqb d 38 then matched ++ getSubstitution matched before after r'
            else if N.eqb d 96 then before ++ getSubstitution matched before after r'
            else if N.eqb d 39 then after ++ getSubstitution matched before after r'
            else c :: getSubstitution matched before after r
        end
      else c :: getSubstitution matched before after r
  end.

(** [s.replace(pat, repl)] with a string pattern: only the first
    occurrence is replaced. *)
Definition replace (pat repl s : jsstring) : jsstring :=
  match splitFirst pat s with
  | None => s
  | Some (before, after) => before ++ getSubstitution pat before after repl ++ after
  end.

(** [s.replace(/c/g, repl)] for a one-character pattern and a replacement
    text without dollar signs. *)
Definition replaceAllChar (c : jschar) (repl : jsstring) (s : jsstring) : jsstring :=
  flat_map (fun x => if N.eqb x c then repl else [x]) s.

(** [LineTerminator] and [WhiteSpace] code units. *)
Definition isLineTerminator (c : jschar) : bool :=
  (N.eqb c 10 || N.eqb c 13 || N.eqb c 8232 || N.eqb c 8233)%bool.

Definition isWhiteSpace (c : jschar) : bool :=
  (N.eqb c 9 || N.eqb c 11 || N.eqb c 12 || N.eqb c 32 || N.eqb c 160
   || N.eqb c 5760 || (N.leb 8192 c && N.leb c 8202) || N.eqb c 8239
   || N.eqb c 8287 || N.eqb c 12288 || N.eqb c 65279)%bool.

Definition isTrimmed (c : jschar) : bool := isWhiteSpace c || isLineTerminator c.

Fixpoint trimStart (s : jsstring) : jsstring :=
  match s with
  | c :: s' => if isTrimmed c then trimStart s' else s
  | [] => []
  end.

(** [s.trim()] *)
Definition trim (s : jsstring) : jsstring := rev (trimStart (rev (trimStart s))).

(** Comparison of strings by code units ([IsLessThan] on strings). *)
Fixpoint str_compare (a b : jsstring) : comparison :=
  match a, b with
  | [], [] => Eq
  | [], _ :: _ => Lt
  | _ :: _, [] => Gt
  | x :: a', y :: b' =>
      match N.compare x y with
      | Eq => str_compare a' b'
      | c => c
      end
  end.

Definition str_ltb (a b : jsstring) : bool :=
  match str_compare a b with Lt => true | _ => false end.

(** [a.sort()] without a comparator orders strings by code units.  The
    order is total and equal strings are indistinguishable, so every
    correct sorting algorithm returns the list that insertion returns. *)
Fixpoint insert (x : jsstring) (l : list jsstring) : list jsstring :=
  match l with
  | [] => [x]
  | y :: l' => if str_ltb y x then y :: insert x l' else x :: l
  end.

Fixpoint sort (l : list jsstring) : list jsstring :=
  match l with
  | [] => []
  | x :: l' => insert x (sort l')
  end.

(** Results of operations that can throw. *)
Inductive completion (A : Type) :=
| Normal (a : A)
| Throw (error : string).
Arguments Normal {A} a.
Arguments Throw {A} error.

Definition bind {A B} (c : completion A) (f : A -> completion B) : completion B :=
  match c with
  | Normal a => f a
  | Throw e => Throw e
  end.

(** *** [decodeURIComponent]

    The [Decode] operation of ECMAScript with an empty set of preserved
    escapes.  Every failure is a [URIError]. *)
Definition URIError : string := "URIError".

Definition hexDigit (c : jschar) : option N :=
  if (N.leb 48 c && N.leb c 57)%bool then Some (c - 48)%N
  else if (N.leb 65 c && N.leb c 70)%bool then Some (c - 55)%N
  else if (N.leb 97 c && N.leb c 102)%bool then Some (c - 87)%N
  else None.

(** [ParseHexOctet] on the two code units after a percent sign. *)
Definition parseHexOctet (s : jsstring) : option N :=
  match s with
  | h1 :: h2 :: _ =>
      match hexDigit h1, hexDigit h2 with
      | Some a, Some b => Some (16 * a + b)%N
      | _, _ => None
      end
  | _ => None
  end.

(** The number of leading 1 bits of an octet. *)
Definition leadingOnes (b : N) : nat :=
  if N.ltb b 128 then 0
  else if N.ltb b 192 then 1
  else if N.ltb b 224 then 2
  else if N.ltb b 240 then 3
  else if N.ltb b 248 then 4
  else 5.

(** The [j] continuation escapes [%XX] that follow a leading octet, and
    the text after them. *)
Fixpoint continuationOctets (j : nat) (s : jsstring) : option (list N * jsstring) :=
  match j with
  | 0 => Some ([], s)
  | S j' =>
      match s with
      | p :: s1 =>
          if N.eqb p 37 then
            match parseHexOctet s1 with
            | Some b =>
                match continuationOctets j' (skipn 2 s1) with
                | Some (bs, s2) => Some (b :: bs, s2)
                | None => None
                end
            | None => None
            end
          else None
      | [] => None
      end
  end.

Definition isContinuation (b : N) : bool := (N.leb 128 b && N.ltb b 192)%bool.

(** The code point that a sequence of [n] octets encodes in UTF-8, when
    the sequence is well formed: the shortest encoding of a code point
    that is no surrogate and at most U+10FFFF. *)
Definition utf8CodePoint (octets : list N) : option N :=
  match octets with
  | [b0; b1] =>
      let cp := ((b0 mod 32) * 64 + b1 mod 64)%N in
      if (isContinuation b1 && N.leb 128 cp)%bool then Some cp else None
  | [b0; b1; b2] =>
      let cp := ((b0 mod 16) * 4096 + (b1 mod 64) * 64 + b2 mod 64)%N in
      if (isContinuation b1 && isContinuation b2 && N.leb 2048 cp
          && negb (N.leb 55296 cp && N.leb cp 57343))%bool
      then Some cp else None
  | [b0; b1; b2; b3] =>
      let cp := ((b0 mod 8) * 262144 + (b1 mod 64) * 4096 + (b2 mod 64) * 64 + b3 mod 64)%N in
      if (isContinuation b1 && isContinuation b2 && isContinuation b3
          && N.leb 65536 cp && N.leb cp 1114111)%bool
      then Some cp else None
  | _ => None
  end.

(** [UTF16EncodeCodePoint] *)
Definition utf16Encode (cp : N) : jsstring :=
  if N.ltb cp 65536 then [cp]
  else [((cp - 65536) / 1024 + 55296)%N; ((cp - 65536) mod 1024 + 56320)%N].

(** The loop of [Decode].  Every iteration consumes at least one code
    unit, so the length of the text is fuel enough. *)
Fixpoint decodeLoop (fuel : nat) (s : jsstring) : completion jsstring :=
  match s with
  | [] => Normal []
  | c :: s1 =>
      match fuel with
      | 0 => Normal []
      | S fuel' =>
          if N.eqb c 37 then
            match parseHexOctet s1 with
            | None => Throw URIError
            | Some b =>
                let n := leadingOnes b in
                if Nat.eqb n 0 then
                  bind (decodeLoop fuel' (skipn 2 s1)) (fun r => Normal (b :: r))
                else if (Nat.eqb n 1 || Nat.ltb 4 n)%bool then Throw URIError
                else
                  match continuationOctets (n - 1) (skipn 2 s1) with
                  | None => Throw URIError
                  | Some (bs, s2) =>
                      match utf8CodePoint (b :: bs) with
                      | None => Throw URIError
                      | Some cp =>
                          bind (decodeLoop fuel' s2) (fun r => Normal (utf16Encode cp ++ r))
                      end
                  end
            end
          else bind (decodeLoop fuel' s1) (fun r => Normal (c :: r))
      end
  end.

Definition decodeURIComponent (s : jsstring) : completion jsstring :=
  decodeLoop (length s) s.

(** *** [path.basename] (POSIX)

    The last component of a path: trailing slashes are skipped, then the
    text back to the previous slash is taken. *)
Definition isSlash (c : jschar) : bool := N.eqb c 47.

Fixpoint dropSlashes (s : jsstring) : jsstring :=
  match s with
  | c :: s' => if isSlash c then dropSlashes s' else s
  | [] => []
  end.

Fixpoint untilSlash (s : jsstring) : jsstring :=
  match s with
  | c :: s' => if isSlash c then [] else c :: untilSlash s'
  | [] => []
  end.

Definition basename (p : jsstring) : jsstring :=
  rev (untilSlash (dropSlashes (rev p))).

(** *** [Buffer.from(text, "utf-8")]

    A surrogate pair becomes the four octets of its code point, a lone
    surrogate the three octets of U+FFFD. *)
Definition isHighSurrogate (c : jschar) : bool := (N.leb 55296 c && N.leb c 56319)%bool.
Definition isLowSurrogate (c : jschar) : bool := (N.leb 56320 c && N.leb c 57343)%bool.

Definition utf8Octets (cp : N) : list N :=
  if N.ltb cp 128 then [cp]
  else if N.ltb cp 2048 then [(192 + cp / 64)%N; (128 + cp mod 64)%N]
  else if N.ltb cp 65536 then
    [(224 + cp / 4096)%N; (128 + (cp / 64) mod 64)%N; (128 + cp mod 64)%N]
  else
    [(240 + cp / 262144)%N; (128 + (cp / 4096) mod 64)%N;
     (128 + (cp / 64) mod 64)%N; (128 + cp mod 64)%N].

Fixpoint utf8Encode (s : jsstring) : list N :=
  match s with
  | [] => []
  | c :: s' =>
      if isHighSurrogate c then
        match s' with
        | d :: s'' =>
            if isLowSurrogate d
            then utf8Octets (65536 + (c - 55296) * 1024 + (d - 56320))%N ++ utf8Encode s''
            else [239; 191; 189]%N ++ utf8Encode s'
        | [] => [239; 191; 189]%N
        end
      else if isLowSurrogate c then [239; 191; 189]%N ++ utf8Encode s'
      else utf8Octets c ++ utf8Encode s'
  end.

(** Predicates on strings that the statements below use: the order of
    [sort], texts without a slash, and replacement texts without a dollar
    sign. *)
Definition str_le (a b : jsstring) : Prop := str_ltb b a = false.


Definition noSlash (s : jsstring) : Prop := forallb (fun c => negb (isSlash c)) s = true.

Definition noDollar (s : jsstring) : Prop :=
  forallb (fun c => negb (N.eqb c 36)) s = true.

Definition noPercent (s : jsstring) : Prop :=
  forallb (fun c => negb (N.eqb c 37)) s = true.


(** A text of ASCII characters. *)
Definition isAscii (s : jsstring) : Prop := forallb (fun c => N.ltb c 128) s = true.

(** The character [c] does not occur in the pattern. *)
Definition lacks (c : jschar) (pat : jsstring) : Prop :=
  forallb (fun x => negb (N.eqb x c)) pat = true.

(** The characters that make a replacement pattern after a dollar sign:
    [$$], [$&], [$`] and [$']. *)
Definition special (c : jschar) : bool :=
  N.eqb c 36 || N.eqb c 38 || N.eqb c 96 || N.eqb c 39.

(** A text without a replacement pattern: no dollar sign is followed by
    one of these characters. *)
Fixpoint patternFree (s : jsstring) : bool :=
  match s with
  | [] => true
  | c :: r =>
      (if N.eqb c 36
       then match r with d :: _ => negb (special d) | [] => true end
       else true)
      && patternFree r
  end.

(** A text that does not begin with one of these characters. *)
Definition headPlain (s : jsstring) : Prop :=
  match s with
  | c :: _ => special c = false
  | [] => True
  end.
End JS.

(** ** Regular expressions

    A backtracking matcher in continuation-passing style, after the
    pattern semantics of ECMAScript, for the constructs that the file-name
    pattern uses: the anchors, character classes, sequences, capture
    groups, the greedy optional group, and greedy and lazy [+] over a
    character class. *)

Module RegExp.
Import JS.

Inductive quantifier := Greedy | Lazy.

Inductive regex :=
| Eps                                         (* the empty pattern *)
| Bol                                         (* ^ *)
| Eol                                         (* $ *)
| Chr (p : jschar -> bool)                    (* one character of a class *)
| Seq (a b : regex)
| Group (i : nat) (a : regex)                 (* ( ... ), the i-th group *)
| Opt (a : regex)                             (* (?: ... )? *)
| Plus (q : quantifier) (p : jschar -> bool). (* c+ and c+? *)

(** The state of a match: the index reached, the text from there on, and
    the captures (slot 0 is kept for the whole match). *)
Record mstate := MState { idx : nat; rest : jsstring; caps : list jsval }.

Fixpoint set_cap (i : nat) (v : jsval) (cs : list jsval) : list jsval :=
  match cs, i with
  | [], _ => []
  | _ :: t, 0 => v :: t
  | h :: t, S j => h :: set_cap j v t
  end.

(** Group [i] captures the text between the state [x] before it and the
    state [y] after it. *)
Definition capture (i : nat) (x y : mstate) : mstate :=
  MState (idx y) (rest y) (set_cap i (JStr (firstn (idx y - idx x) (rest x))) (caps y)).

Definition continuation := mstate -> option mstate.

(** [c+]: one character, then as many more as possible, giving them back
    one at a time while the continuation fails. *)
Fixpoint plusGreedy (p : jschar -> bool) (i : nat) (s : jsstring)
    (k : nat -> jsstring -> option mstate) : option mstate :=
  match s with
  | c :: s' =>
      if p c then
        match plusGreedy p (S i) s' k with
        | Some y => Some y
        | None => k (S i) s'
        end
      else None
  | [] => None
  end.

(** [c+?]: one character, then the continuation first, and one more
    character only when it fails. *)
Fixpoint plusLazy (p : jschar -> bool) (i : nat) (s : jsstring)
    (k : nat -> jsstring -> option mstate) : option mstate :=
  match s with
  | c :: s' =>
      if p c then
        match k (S i) s' with
        | Some y => Some y
        | None => plusLazy p (S i) s' k
        end
      else None
  | [] => None
  end.

Fixpoint matcher (r : regex) (x : mstate) (k : continuation) : option mstate :=
  match r with
  | Eps => k x
  | Bol => if Nat.eqb (idx x) 0 then k x else None
  | Eol => match rest x with [] => k x | _ :: _ => None end
  | Chr p =>
      match rest x with
      | c :: s => if p c then k (MState (S (idx x)) s (caps x)) else None
      | [] => None
      end
  | Seq a b => matcher a x (fun y => matcher b y k)
  | Group i a => matcher a x (fun y => k (capture i x y))
  | Opt a =>
      match matcher a x (fun y => if Nat.eqb (idx y) (idx x) then None else k y) with
      | Some y => Some y
      | None => k x
      end
  | Plus Greedy p => plusGreedy p (idx x) (rest x) (fun i s => k (MState i s (caps x)))
  | Plus Lazy p => plusLazy p (idx x) (rest x) (fun i s => k (MState i s (caps x)))
  end.

(** [RegExpBuiltinExec] for a pattern without flags: the match is tried at
    index 0, then at every later index.  The result is the array of the
    whole match followed by the [ngroups] captures. *)
Fixpoint execFrom (r : regex) (ngroups : nat) (i : nat) (s : jsstring) : option (list jsval) :=
  match matcher r (MState i s (repeat JUndefined (S ngroups))) (fun y => Some y) with
  | Some y => Some (set_cap 0 (JStr (firstn (idx y - i) s)) (caps y))
  | None =>
      match s with
      | [] => None
      | _ :: s' => execFrom r ngroups (S i) s'
      end
  end.

(** [text.match(r)] *)
Definition exec (r : regex) (ngroups : nat) (text : jsstring) : option (list jsval) :=
  execFrom r ngroups 0 text.

(** What a successful match of [r] from [x] to [y] amounts to, apart
    from the order in which the matcher tries the alternatives. *)
Definition consumes (w : jsstring) (x y : mstate) : Prop :=
  rest x = w ++ rest y /\ idx y = idx x + length w /\ caps y = caps x.

Fixpoint den (r : regex) (x y : mstate) : Prop :=
  match r with
  | Eps => y = x
  | Bol => idx x = 0 /\ y = x
  | Eol => rest x = [] /\ y = x
  | Chr p => exists c, p c = true /\ consumes [c] x y
  | Seq a b => exists z, den a x z /\ den b z y
  | Group i a => exists z, den a x z /\ y = capture i x z
  | Opt a => (den a x y /\ idx y <> idx x) \/ y = x
  | Plus _ p => exists w, w <> [] /\ forallb p w = true /\ consumes w x y
  end.

(** The state [y] is reached from [x] over the text [w] with captures [cs]. *)
Definition reach (w : jsstring) (cs : list jsval) (x y : mstate) : Prop :=
  rest x = w ++ rest y /\ idx y = idx x + length w /\ caps y = cs.

(** Building matches: the pattern [r] takes the matcher over the text [w],
    turning the captures [cs] into [f cs]. *)
Definition moves (r : regex) (w : jsstring) (f : list jsval -> list jsval) : Prop :=
  forall i s cs, den r (MState i (w ++ s) cs) (MState (i + length w) s (f cs)).

(** The same up to the end of the text. *)
Definition ends (r : regex) (w : jsstring) (f : list jsval -> list jsval) : Prop :=
  forall i cs, den r (MState i w cs) (MState (i + length w) [] (f cs)).

(** Character classes. *)
Definition digit (c : jschar) : bool := (N.leb 48 c && N.leb c 57)%bool.     (* \d *)
Definition word (c : jschar) : bool :=                                      (* \w *)
  (digit c || (N.leb 65 c && N.leb c 90) || (N.leb 97 c && N.leb c 122) || N.eqb c 95)%bool.
Definition dot (c : jschar) : bool := negb (isLineTerminator c).            (* . *)

(** A literal text, and [a{n}]. *)
Fixpoint text (s : jsstring) : regex :=
  match s with
  | [] => Eps
  | c :: s' => Seq (Chr (N.eqb c)) (text s')
  end.

Fixpoint times (n : nat) (a : regex) : regex :=
  match n with
  | 0 => Eps
  | S n' => Seq a (times n' a)
  end.

End RegExp.

(** ** The program *)

Module Serve.
Import JS RegExp.

Definition HTML_TEMPLATE : jsstring :=
  lines
    [ "<!DOCTYPE html>"
    ; "<html lang=" ++ Q ++ "en" ++ Q ++ ">"
    ; "<head>"
    ; "<meta charset=" ++ Q ++ "utf-8" ++ Q ++ ">"
    ; "<meta name=" ++ Q ++ "viewport" ++ Q ++ " content=" ++ Q ++ "width=device-width, initial-scale=1" ++ Q ++ ">"
    ; "<title>TITLE</title>"
    ; "<link rel=" ++ Q ++ "stylesheet" ++ Q ++ " href=" ++ Q ++ "https://cdn.jsdelivr.net/npm/github-markdown-css@5/github-markdown-dark.min.css" ++ Q ++ ">"
    ; "<script src=" ++ Q ++ "https://cdn.jsdelivr.net/npm/marked/marked.min.js" ++ Q ++ "></script>"
    ; "<style>"
    ; "  body {"
    ; "    background: #0d1117;"
    ; "    color: #e6edf3;"
    ; "    max-width: 960px;"
    ; "    margin: 0 auto;"
    ; "    padding: 2rem 1rem;"
    ; "    font-family: -apple-system, BlinkMacSystemFont, " ++ Q ++ "Segoe UI" ++ Q ++ ", Helvetica, Arial, sans-serif;"
    ; "  }"
    ; "  .markdown-body {"
    ; "    background: transparent;"
    ; "  }"
    ; "  .markdown-body pre {"
    ; "    background: #161b22;"
    ; "  }"
    ; "  .markdown-body code {"
    ; "    background: #161b22;"
    ; "  }"
    ; "  nav { margin-bottom: 1.5rem; }"
    ; "  nav a { color: #58a6ff; text-decoration: none; }"
    ; "  nav a:hover { text-decoration: underline; }"
    ; "  #content { display: none; }"
    ; "</style>"
    ; "</head>"
    ; "<body>"
    ; "<nav><a href=" ++ Q ++ "/" ++ Q ++ ">&larr; All sessions</a></nav>"
    ; "<div id=" ++ Q ++ "raw" ++ Q ++ " class=" ++ Q ++ "markdown-body" ++ Q ++ "></div>"
    ; "<pre id=" ++ Q ++ "content" ++ Q ++ ">CONTENT</pre>"
    ; "<script>"
    ; "  const md = document.getElementById('content').textContent;"
    ; "  document.getElementById('raw').innerHTML = marked.parse(md);"
    ; "</script>"
    ; "</body>"
    ; "</html>"
    ]%string.

Definition INDEX_TEMPLATE : jsstring :=
  lines
    [ "<!DOCTYPE html>"
    ; "<html lang=" ++ Q ++ "en" ++ Q ++ ">"
    ; "<head>"
    ; "<meta charset=" ++ Q ++ "utf-8" ++ Q ++ ">"
    ; "<meta name=" ++ Q ++ "viewport" ++ Q ++ " content=" ++ Q ++ "width=device-width, initial-scale=1" ++ Q ++ ">"
    ; "<title>Session Logs</title>"
    ; "<style>"
    ; "  body {"
    ; "    background: #0d1117;"
    ; "    color: #e6edf3;"
    ; "    max-width: 960px;"
    ; "    margin: 0 auto;"
    ; "    padding: 2rem 1rem;"
    ; "    font-family: -apple-system, BlinkMacSystemFont, " ++ Q ++ "Segoe UI" ++ Q ++ ", Helvetica, Arial, sans-serif;"
    ; "  }"
    ; "  h1 { border-bottom: 1px solid #30363d; padding-bottom: 0.5rem; }"
    ; "  .session {"
    ; "    padding: 0.75rem 0;"
    ; "    border-bottom: 1px solid #21262d;"
    ; "    display: flex;"
    ; "    justify-content: space-between;"
    ; "    align-items: center;"
    ; "  }"
    ; "  .session-name {"
    ; "    font-family: monospace;"
    ; "    font-size: 0.95rem;"
    ; "  }"
    ; "  a { color: #58a6ff; text-decoration: none; }"
    ; "  a:hover { text-decoration: underline; }"
    ; "  .links { font-size: 0.85rem; }"
    ; "  .links a { margin-left: 1rem; }"
    ; "  .subagent { opacity: 0.7; font-size: 0.85rem; margin-left: 0.5rem; }"
    ; "  .empty { color: #8b949e; font-style: italic; }"
    ; "</style>"
    ; "</head>"
    ; "<body>"
    ; "<h1>Session Logs</h1>"
    ; "ENTRIES"
    ; "</body>"
    ; "</html>"
    ]%string.

(** [escapeHtml]: four global replacements, ampersand first. *)
Definition escapeHtml (text : jsstring) : jsstring :=
  replaceAllChar 34%N (lit "&quot;")
    (replaceAllChar 62%N (lit "&gt;")
       (replaceAllChar 60%N (lit "&lt;")
          (replaceAllChar 38%N (lit "&amp;") text))).

(** The pattern of [parseLogName]:
    [^(\d{4}-\d{2}-\d{2})-(?:(\d{4})-)?(\w+?)(?:-subagent-(.+)-(\w+))?$] *)
Definition dash : regex := Chr (N.eqb 45).

Definition LOG_NAME_RE : regex :=
  Seq Bol
  (Seq (Group 1 (Seq (times 4 (Chr digit)) (Seq dash
                (Seq (times 2 (Chr digit)) (Seq dash (times 2 (Chr digit)))))))
  (Seq dash
  (Seq (Opt (Seq (Group 2 (times 4 (Chr digit))) dash))
  (Seq (Group 3 (Plus Lazy word))
  (Seq (Opt (Seq (text (lit "-subagent-"))
            (Seq (Group 4 (Plus Greedy dot))
            (Seq dash (Group 5 (Plus Greedy word))))))
   Eol))))).

Record logMeta := LogMeta {
  raw : jsval;
  date : jsval;
  time : jsval;
  session : jsval;
  agentType : jsval;
  agentId : jsval
}.

Definition parseLogName (filename : jsstring) : logMeta :=
  let name := replace (lit ".md") [] filename in
  match exec LOG_NAME_RE 5 name with
  | None => LogMeta (JStr name) (JStr []) (JStr []) (JStr []) JNull JNull
  | Some m =>
      let timePart := nth 2 m JUndefined in
      LogMeta (JStr name)
        (nth 1 m JUndefined)
        (if truthy timePart
         then JStr (slice 0 2 (toString timePart) ++ lit ":" ++ sliceFrom 2 (toString timePart))
         else JStr [])
        (nth 3 m JUndefined)
        (js_or (nth 4 m JUndefined) JNull)
        (js_or (nth 5 m JUndefined) JNull)
  end.

(** *** The log directory

    The directory as the program sees it: [None] when it cannot be read,
    otherwise its entries in the order the system lists them.  A regular
    file holds the text that reading it as UTF-8 yields.  [path.join] of
    the directory and a base name denotes the entry of that name. *)
Inductive node :=
| File (content : jsstring)
| Directory.

Definition logdir := option (list (jsstring * node)).

Definition ENOENT : string := "ENOENT".
Definition EISDIR : string := "EISDIR".

(** [fs.readdirSync(dir)] *)
Definition readdirSync (d : logdir) : completion (list jsstring) :=
  match d with
  | Some entries => Normal (map fst entries)
  | None => Throw ENOENT
  end.

(** [fs.readFileSync(path.join(dir, name), "utf-8")] *)
Definition readFileSync (d : logdir) (name : jsstring) : completion jsstring :=
  match d with
  | Some entries =>
      match find (fun e => str_eqb (fst e) name) entries with
      | Some (_, File content) => Normal content
      | Some (_, Directory) => Throw EISDIR
      | None => Throw ENOENT
      end
  | None => Throw ENOENT
  end.

(** *** [buildIndex] *)

(** The names that are listed: those ending in [.md] and not starting
    with a dot, sorted and then reversed. *)
Definition listed (f : jsstring) : bool :=
  endsWith (lit ".md") f && negb (startsWith (lit ".") f).

Definition indexFiles (d : logdir) : list jsstring :=
  let files :=
    match readdirSync d with
    | Normal names => filter listed names
    | Throw _ => []
    end in
  rev (sort files).

(** The label of an entry: the date, time and session, or the raw name. *)
Definition baseLabel (meta : logMeta) : jsstring :=
  if truthy (date meta) then
    let dateTime := trim (toString (date meta) ++ lit " " ++ toString (time meta)) in
    dateTime ++ lit " &mdash; " ++ toString (session meta)
  else toString (raw meta).

(** The label with the annotation of a sub-agent record. *)
Definition entryLabel (meta : logMeta) : jsstring :=
  let label := baseLabel meta in
  if truthy (agentType meta) then
    label ++ lit ("<span class=" ++ Q ++ "subagent" ++ Q ++ ">")
          ++ toString (agentType meta) ++ lit " "
          ++ toString (js_or (agentId meta) (JStr [])) ++ lit "</span>"
  else label.

Definition slugOf (f : jsstring) : jsstring := replace (lit ".md") [] f.

(** The fragment of one file. *)
Definition renderEntry (f : jsstring) : jsstring :=
  let meta := parseLogName f in
  let label := entryLabel meta in
  let slug := slugOf f in
  lit ("<div class=" ++ Q ++ "session" ++ Q ++ ">")
  ++ (lit ("  <span class=" ++ Q ++ "session-name" ++ Q ++ ">") ++ label ++ lit "</span>")
  ++ lit ("  <span class=" ++ Q ++ "links" ++ Q ++ ">")
  ++ (lit ("    <a href=" ++ Q ++ "/") ++ slug ++ lit (Q ++ ">view</a>"))
  ++ (lit ("    <a href=" ++ Q ++ "/") ++ f ++ lit (Q ++ ">raw</a>"))
  ++ lit "  </span>"
  ++ lit "</div>".

Definition EMPTY_STATE : jsstring :=
  lit ("<p class=" ++ Q ++ "empty" ++ Q ++ ">No session logs found.</p>").

Definition indexParts (d : logdir) : list jsstring := map renderEntry (indexFiles d).

Definition buildIndex (d : logdir) : jsstring :=
  match indexFiles d with
  | [] => replace (lit "ENTRIES") EMPTY_STATE INDEX_TEMPLATE
  | _ :: _ => replace (lit "ENTRIES") (join [LF] (indexParts d)) INDEX_TEMPLATE
  end.


(** *** The request handler of [main] *)

Record response := Response {
  statusCode : N;
  contentType : jsstring;
  contentLength : nat;
  allowOrigin : jsstring;
  body : list N
}.

Definition respond (code : N) (text : jsstring) (ctype : jsstring) : response :=
  let buf := utf8Encode text in
  Response code ctype (length buf) (lit "*") buf.

Definition notFound : response := respond 404%N (lit "Not found") (lit "text/plain").

(** [.replace(/^\/+/, "")] *)
Definition stripLeadingSlashes (s : jsstring) : jsstring := dropSlashes s.

(** The three routes, for the decoded path without its leading slashes:
    the index, the raw file and the rendered page.  Both reads are inside
    [try]: a failed read is answered with 404. *)
Definition dispatch (d : logdir) (urlPath : jsstring) : response :=
  if negb (truthy (JStr urlPath)) then
    respond 200%N (buildIndex d) (lit "text/html")
  else if endsWith (lit ".md") urlPath then
    match readFileSync d (basename urlPath) with
    | Normal content => respond 200%N content (lit "text/plain; charset=utf-8")
    | Throw _ => notFound
    end
  else
    match readFileSync d (basename urlPath ++ lit ".md") with
    | Normal content =>
        let title := escapeHtml (basename urlPath) in
        let page := replace (lit "CONTENT") (escapeHtml content)
                      (replace (lit "TITLE") title HTML_TEMPLATE) in
        respond 200%N page (lit "text/html")
    | Throw _ => notFound
    end.

(** The callback given to [http.createServer], for the request target
    [url] and the log directory [d].  The path is decoded outside any
    [try]; [Throw] is an exception that leaves the callback. *)
Definition handler (d : logdir) (url : jsstring) : completion response :=
  bind (decodeURIComponent (toString (js_or (JStr url) (JStr (lit "/")))))
       (fun decoded => Normal (dispatch d (stripLeadingSlashes decoded))).


(** *** [parseArgs] *)

(** The numbers that [parseInt] can return: an integer, [NaN], an
    infinity or the negative zero. *)
Inductive jsnumber :=
| NaN
| Infinity
| NegInfinity
| NegZero
| Num (z : Z).

Record args := Args { port : jsnumber; host : jsstring; dir : jsstring }.

Definition DEFAULT_PORT : jsnumber := Num 3000.
Definition DEFAULT_HOST : jsstring := lit "127.0.0.1".
(** [path.join(".claude", "logs")] *)
Definition DEFAULT_DIR : jsstring := lit ".claude/logs".

Section ParseArgs.

(** [parseInt(text, 10)] of the runtime. *)
Variable parseInt10 : jsstring -> jsnumber.

(** The loop of [parseArgs] from one index on: a flag with a truthy next
    argument takes it as its value and skips it; everything else is
    passed over. *)
Fixpoint parseArgsFrom (a : args) (argv : list jsstring) : args :=
  match argv with
  | [] => a
  | flag :: rest =>
      match rest with
      | [] => a
      | value :: rest' =>
          if str_eqb flag (lit "--port") && truthy (JStr value)
          then parseArgsFrom (Args (parseInt10 value) (host a) (dir a)) rest'
          else if str_eqb flag (lit "--host") && truthy (JStr value)
          then parseArgsFrom (Args (port a) value (dir a)) rest'
          else if str_eqb flag (lit "--dir") && truthy (JStr value)
          then parseArgsFrom (Args (port a) (host a) value) rest'
          else parseArgsFrom a rest
      end
  end.

Definition parseArgs (argv : list jsstring) : args :=
  parseArgsFrom (Args DEFAULT_PORT DEFAULT_HOST DEFAULT_DIR) (skipn 2 argv).

End ParseArgs.

(** The three flags. *)
Definition isFlag (s : jsstring) : bool :=
  str_eqb s (lit "--port") || str_eqb s (lit "--host") || str_eqb s (lit "--dir").

(** A flag with a value that is not empty, as two arguments. *)
Definition option2 (o : jsstring * jsstring) : list jsstring := [fst o; snd o].
Definition validOption (o : jsstring * jsstring) : Prop :=
  isFlag (fst o) = true /\ snd o <> [].

(** What [escapeHtml] makes of one character. *)
Definition escapeChar (c : jschar) : jsstring :=
  if N.eqb c 38 then lit "&amp;"
  else if N.eqb c 60 then lit "&lt;"
  else if N.eqb c 62 then lit "&gt;"
  else if N.eqb c 34 then lit "&quot;"
  else [c].

End Serve.

(** ** The naming grammar of the specification

    [name := date '-' (time '-')? session ('-subagent-' agentType '-' agentId)?]
    with a date of 4, 2 and 2 digits, a time of 4 digits, a session of one
    or more word characters, an agent type of one or more characters and
    an agent id of one or more word characters. *)

Module Grammar.
Import JS RegExp Serve.

Record parts := Parts {
  p_date : jsstring;
  p_time : option jsstring;
  p_session : jsstring;
  p_agent : option (jsstring * jsstring)
}.

Definition digits (n : nat) (s : jsstring) : Prop :=
  length s = n /\ forallb digit s = true.

Definition words (s : jsstring) : Prop :=
  s <> [] /\ forallb word s = true.

Definition isDate (d : jsstring) : Prop :=
  exists y m dd,
    d = y ++ lit "-" ++ m ++ lit "-" ++ dd /\ digits 4 y /\ digits 2 m /\ digits 2 dd.

Definition wellFormed (p : parts) : Prop :=
  isDate (p_date p)
  /\ match p_time p with Some t => digits 4 t | None => True end
  /\ words (p_session p)
  /\ match p_agent p with
     | Some (ty, id) => ty <> [] /\ words id
     | None => True
     end.

(** The file name, without its extension, that a choice of parts spells. *)
Definition spell (p : parts) : jsstring :=
  p_date p ++ lit "-"
  ++ match p_time p with Some t => t ++ lit "-" | None => [] end
  ++ p_session p
  ++ match p_agent p with
     | Some (ty, id) => lit "-subagent-" ++ ty ++ lit "-" ++ id
     | None => []
     end.

Definition conforms (name : jsstring) : Prop :=
  exists p, wellFormed p /\ name = spell p.


(** The record that the parts stand for: the time with its colon, the
    agent pair present or absent as a whole. *)
Definition recordOf (name : jsstring) (p : parts) : logMeta :=
  LogMeta (JStr name)
    (JStr (p_date p))
    (JStr match p_time p with
          | Some t => firstn 2 t ++ lit ":" ++ skipn 2 t
          | None => []
          end)
    (JStr (p_session p))
    (match p_agent p with Some (ty, _) => JStr ty | None => JNull end)
    (match p_agent p with Some (_, id) => JStr id | None => JNull end).

(** The record of a name outside the grammar. *)
Definition fallback (name : jsstring) : logMeta :=
  LogMeta (JStr name) (JStr []) (JStr []) (JStr []) JNull JNull.

(** The captures of a match, for a choice of parts. *)
Definition capturesOf (p : parts) : list jsval :=
  [ JStr (p_date p);
    match p_time p with Some t => JStr t | None => JUndefined end;
    JStr (p_session p);
    match p_agent p with Some (ty, _) => JStr ty | None => JUndefined end;
    match p_agent p with Some (_, id) => JStr id | None => JUndefined end ].

(** The agent type is matched by [.+]: it holds no line terminator. *)
Definition agentOnOneLine (p : parts) : Prop :=
  match p_agent p with
  | Some (ty, _) => forallb dot ty = true
  | None => True
  end.

(** A text whose first and last characters are digits. *)
Definition digitEnds (s : jsstring) : Prop :=
  (exists c s', s = c :: s' /\ digit c = true)
  /\ (exists c s', rev s = c :: s' /\ digit c = true).

(** The one ambiguity of the grammar: [DATE-dddd-subagent-subagent-T-I]
    reads as a time and the session [subagent], or as the session [dddd]
    and the agent type [subagent-T].  The parts [p] are not of either
    kind. *)
Definition unambiguous (p : parts) : Prop :=
  match p_time p with
  | Some _ => p_session p <> lit "subagent"
  | None => ~ digits 4 (p_session p)
  end.

(** A text stops a word: it is empty or begins with a character that is
    no word character. *)
Definition stops (r : jsstring) : Prop :=
  match r with
  | [] => True
  | c :: _ => word c = false
  end.

(** The text of the optional parts of a name. *)
Definition timeText (tm : option jsstring) : jsstring :=
  match tm with
  | Some t => t ++ lit "-"
  | None => []
  end.

Definition agentText (ag : option (jsstring * jsstring)) : jsstring :=
  match ag with
  | Some (ty, id) => lit "-subagent-" ++ ty ++ lit "-" ++ id
  | None => []
  end.

End Grammar.

Import JS RegExp Serve Grammar.

(** ** The matcher finds only matches *)

Module RegExpFacts.

Lemma plusGreedy_sound p s : forall i k res,
  plusGreedy p i s k = Some res ->
  exists w s', w <> [] /\ forallb p w = true /\ s = w ++ s'
               /\ k (i + length w) s' = Some res.
Proof.
  induction s as [|c s IH]; intros i k res H; simpl in H; [discriminate|].
  destruct (p c) eqn:Hc; [|discriminate].
  destruct (plusGreedy p (S i) s k) eqn:Hrec.
  - inversion H; subst. destruct (IH _ _ _ Hrec) as (w & s' & Hw & Hp & Hs & Hk).
    exists (c :: w), s'. simpl. rewrite Hc, Hp. repeat split; try congruence.
    now rewrite Nat.add_succ_r.
  - exists [c], s. simpl. rewrite Hc. repeat split; try congruence.
    now rewrite Nat.add_1_r.
Qed.

Lemma plusLazy_sound p s : forall i k res,
  plusLazy p i s k = Some res ->
  exists w s', w <> [] /\ forallb p w = true /\ s = w ++ s'
               /\ k (i + length w) s' = Some res.
Proof.
  induction s as [|c s IH]; intros i k res H; simpl in H; [discriminate|].
  destruct (p c) eqn:Hc; [|discriminate].
  destruct (k (S i) s) eqn:Hk0.
  - inversion H; subst. exists [c], s. simpl. rewrite Hc.
    repeat split; try congruence. now rewrite Nat.add_1_r.
  - destruct (IH _ _ _ H) as (w & s' & Hw & Hp & Hs & Hk).
    exists (c :: w), s'. simpl. rewrite Hc, Hp. repeat split; try congruence.
    now rewrite Nat.add_succ_r.
Qed.

Theorem matcher_sound r : forall x k res,
  matcher r x k = Some res -> exists y, den r x y /\ k y = Some res.
Proof.
  induction r as [| | |p|a IHa b IHb|i a IHa|a IHa|q p]; intros x k res H; simpl in H.
  - exists x; now split.
  - destruct (Nat.eqb (idx x) 0) eqn:E; [|discriminate].
    apply Nat.eqb_eq in E. exists x; simpl; auto.
  - destruct (rest x) eqn:E; [|discriminate]. exists x; simpl; auto.
  - destruct (rest x) as [|c s] eqn:E; [discriminate|].
    destruct (p c) eqn:Hc; [|discriminate].
    eexists; split; [|exact H]. exists c; split; [assumption|].
    unfold consumes; simpl. repeat split; auto. now rewrite Nat.add_1_r.
  - destruct (IHa _ _ _ H) as (z & Hz & H').
    destruct (IHb _ _ _ H') as (y & Hy & Hk).
    exists y; split; [exists z; auto|assumption].
  - destruct (IHa _ _ _ H) as (z & Hz & Hk).
    exists (capture i x z); split; [exists z; auto|assumption].
  - destruct (matcher a x _) eqn:E.
    + inversion H; subst. destruct (IHa _ _ _ E) as (y & Hy & Hk).
      destruct (Nat.eqb (idx y) (idx x)) eqn:Ei; [discriminate|].
      apply Nat.eqb_neq in Ei. exists y; split; [left; auto|assumption].
    + exists x; split; [right; reflexivity|assumption].
  - destruct q.
    + destruct (plusGreedy_sound _ _ _ _ H) as (w & s' & Hw & Hp & Hs & Hk).
      eexists; split; [|exact Hk]. exists w. unfold consumes; simpl. auto.
    + destruct (plusLazy_sound _ _ _ _ H) as (w & s' & Hw & Hp & Hs & Hk).
      eexists; split; [|exact Hk]. exists w. unfold consumes; simpl. auto.
Qed.

(** Matches of the pieces without groups. *)
Lemma consumes_trans w1 w2 x z y :
  consumes w1 x z -> consumes w2 z y -> consumes (w1 ++ w2) x y.
Proof.
  unfold consumes. intros (R1 & I1 & C1) (R2 & I2 & C2).
  rewrite R1, R2, I2, I1, C2, C1, length_app, <- app_assoc. repeat split; lia.
Qed.

Lemma consumes_nil x : consumes [] x x.
Proof. unfold consumes; simpl. repeat split; lia. Qed.

Lemma den_times_chr p n : forall x y,
  den (times n (Chr p)) x y ->
  exists w, length w = n /\ forallb p w = true /\ consumes w x y.
Proof.
  induction n as [|n IH]; intros x y H; simpl in H.
  - subst y. exists []. split; [reflexivity|]. split; [reflexivity|].
    apply consumes_nil.
  - destruct H as (z & (c & Hc & Hcz) & Hz).
    destruct (IH _ _ Hz) as (w & Hl & Hp & Hw).
    exists (c :: w). simpl. rewrite Hc, Hp, Hl.
    split; [reflexivity|]. split; [reflexivity|].
    apply (consumes_trans Hcz Hw).
Qed.

Lemma den_text s : forall x y, den (text s) x y -> consumes s x y.
Proof.
  induction s as [|c s IH]; intros x y H; simpl in H.
  - subst y. apply consumes_nil.
  - destruct H as (z & (c' & Hc & Hcz) & Hz).
    apply N.eqb_eq in Hc. subst c'.
    apply (consumes_trans Hcz (IH _ _ Hz)).
Qed.

Lemma den_dash x y : den dash x y -> consumes (lit "-") x y.
Proof.
  intros (c & Hc & H). apply N.eqb_eq in Hc. now subst c.
Qed.

(** A group around a piece that consumes [w] captures [w]. *)
Lemma capture_consumes i w x z :
  consumes w x z ->
  consumes w x (MState (idx z) (rest z) (caps x))
  /\ capture i x z = MState (idx z) (rest z) (set_cap i (JStr w) (caps x)).
Proof.
  intros (R & I & C). unfold capture, consumes; simpl.
  rewrite R, I, C. replace (idx x + length w - idx x) with (length w) by lia.
  rewrite firstn_app, firstn_all, Nat.sub_diag. simpl. rewrite app_nil_r.
  repeat split.
Qed.

(** *** The matcher finds every match *)

Lemma plusGreedy_complete p w : forall i s k res,
  w <> [] -> forallb p w = true -> k (i + length w) s = Some res ->
  exists res', plusGreedy p i (w ++ s) k = Some res'.
Proof.
  induction w as [|c w IH]; intros i s k res Hw Hp Hk; [congruence|].
  simpl in Hp. apply andb_true_iff in Hp. destruct Hp as (Hc & Hp).
  simpl. rewrite Hc.
  destruct (plusGreedy p (S i) (w ++ s) k) as [y|] eqn:E; [now exists y|].
  destruct w as [|c' w].
  - simpl in Hk. rewrite Nat.add_1_r in Hk. now exists res.
  - destruct (IH (S i) s k res) as (res' & E'); try congruence.
    simpl in *. now rewrite <- Nat.add_succ_r.
Qed.

Lemma plusLazy_complete p w : forall i s k res,
  w <> [] -> forallb p w = true -> k (i + length w) s = Some res ->
  exists res', plusLazy p i (w ++ s) k = Some res'.
Proof.
  induction w as [|c w IH]; intros i s k res Hw Hp Hk; [congruence|].
  simpl in Hp. apply andb_true_iff in Hp. destruct Hp as (Hc & Hp).
  simpl. rewrite Hc.
  destruct (k (S i) (w ++ s)) as [y|] eqn:E; [now exists y|].
  destruct w as [|c' w].
  - simpl in Hk, E. rewrite Nat.add_1_r in Hk. congruence.
  - apply (IH (S i) s k res); try congruence.
    simpl in *. now rewrite <- Nat.add_succ_r.
Qed.

Lemma mstate_eta y i s cs : idx y = i -> rest y = s -> caps y = cs -> y = MState i s cs.
Proof. destruct y; simpl; congruence. Qed.

Theorem matcher_complete r : forall x y k res,
  den r x y -> k y = Some res -> exists res', matcher r x k = Some res'.
Proof.
  induction r as [| | |p|a IHa b IHb|i a IHa|a IHa|q p]; intros x y k res H Hk; simpl in H |- *.
  - subst y. eauto.
  - destruct H as (H0 & ->). rewrite H0. simpl. eauto.
  - destruct H as (H0 & ->). rewrite H0. eauto.
  - destruct H as (c & Hc & (R & I & C)). simpl in R. rewrite R, Hc.
    rewrite (@mstate_eta y _ _ _ I eq_refl C), Nat.add_1_r in Hk. eauto.
  - destruct H as (z & Ha & Hb).
    destruct (IHb _ _ _ _ Hb Hk) as (r1 & E1).
    exact (IHa _ _ _ _ Ha E1).
  - destruct H as (z & Ha & ->). exact (IHa _ _ _ _ Ha Hk).
  - destruct (matcher a x _) as [r1|] eqn:E; [eauto|].
    destruct H as [(Ha & Hi) | ->]; [|eauto].
    assert ((fun y0 => if Nat.eqb (idx y0) (idx x) then None else k y0) y = Some res) as Hk'.
    { apply Nat.eqb_neq in Hi. now rewrite Hi. }
    destruct (IHa _ _ _ _ Ha Hk') as (r1 & E1). congruence.
  - destruct H as (w & Hw & Hp & (R & I & C)). rewrite R.
    rewrite (@mstate_eta y _ _ _ I eq_refl C) in Hk.
    destruct q; [eapply plusGreedy_complete|eapply plusLazy_complete]; eassumption.
Qed.

Lemma moves_chr (p : jschar -> bool) c : p c = true -> moves (Chr p) [c] (fun cs => cs).
Proof.
  intros Hc i s cs. exists c. split; [assumption|]. unfold consumes; simpl. auto.
Qed.

Lemma moves_eps : moves Eps [] (fun cs => cs).
Proof. intros i s cs. simpl. now rewrite Nat.add_0_r. Qed.

Lemma moves_seq a b w1 w2 f g :
  moves a w1 f -> moves b w2 g -> moves (Seq a b) (w1 ++ w2) (fun cs => g (f cs)).
Proof.
  intros Ha Hb i s cs. exists (MState (i + length w1) (w2 ++ s) (f cs)). split.
  - rewrite <- app_assoc. apply Ha.
  - rewrite length_app, Nat.add_assoc. apply Hb.
Qed.

Lemma ends_seq a b w1 w2 f g :
  moves a w1 f -> ends b w2 g -> ends (Seq a b) (w1 ++ w2) (fun cs => g (f cs)).
Proof.
  intros Ha Hb i cs. exists (MState (i + length w1) w2 (f cs)). split.
  - apply Ha.
  - rewrite length_app, Nat.add_assoc. apply Hb.
Qed.

Lemma ends_eol : ends Eol [] (fun cs => cs).
Proof. intros i cs. simpl. now rewrite Nat.add_0_r. Qed.

Lemma moves_times (p : jschar -> bool) w :
  forallb p w = true -> moves (times (length w) (Chr p)) w (fun cs => cs).
Proof.
  induction w as [|c w IH]; intro H; [apply moves_eps|].
  simpl in H. apply andb_true_iff in H. destruct H as (Hc & Hw).
  apply (@moves_seq _ _ _ _ _ _ (@moves_chr p c Hc) (IH Hw)).
Qed.

Lemma moves_text w : moves (text w) w (fun cs => cs).
Proof.
  induction w as [|c w IH]; [apply moves_eps|].
  apply (@moves_seq _ _ _ _ _ _ (@moves_chr (N.eqb c) c (N.eqb_refl c)) IH).
Qed.

Lemma moves_dash : moves dash (lit "-") (fun cs => cs).
Proof. apply (@moves_chr (N.eqb 45) 45%N). reflexivity. Qed.

Lemma moves_plus q (p : jschar -> bool) w :
  w <> [] -> forallb p w = true -> moves (Plus q p) w (fun cs => cs).
Proof.
  intros Hw Hp i s cs. exists w. unfold consumes; simpl. auto.
Qed.

Lemma moves_group k a w f :
  moves a w f -> moves (Group k a) w (fun cs => set_cap k (JStr w) (f cs)).
Proof.
  intros Ha i s cs. exists (MState (i + length w) s (f cs)). split; [apply Ha|].
  unfold capture; simpl. replace (i + length w - i) with (length w) by lia.
  now rewrite firstn_app, firstn_all, Nat.sub_diag, app_nil_r.
Qed.

Lemma ends_group k a w f :
  ends a w f -> ends (Group k a) w (fun cs => set_cap k (JStr w) (f cs)).
Proof.
  intros Ha i cs. exists (MState (i + length w) [] (f cs)). split; [apply Ha|].
  unfold capture; simpl. replace (i + length w - i) with (length w) by lia.
  now rewrite firstn_all.
Qed.

Lemma moves_opt a w f : w <> [] -> moves a w f -> moves (Opt a) w f.
Proof.
  intros Hw Ha i s cs. left. split; [apply Ha|]. simpl.
  destruct w; [congruence|simpl; lia].
Qed.

Lemma moves_skip a : moves (Opt a) [] (fun cs => cs).
Proof. intros i s cs. right. simpl. now rewrite Nat.add_0_r. Qed.

Lemma moves_date d :
  isDate d ->
  moves (Seq (times 4 (Chr digit)) (Seq dash
          (Seq (times 2 (Chr digit)) (Seq dash (times 2 (Chr digit)))))) d (fun cs => cs).
Proof.
  intros (yy & mm & dd & -> & (Ly & Py) & (Lm & Pm) & (Ld & Pd)).
  rewrite <- Ly at 1. rewrite <- Lm at 1. rewrite <- Ld at 1.
  apply (@moves_seq _ _ _ _ _ _ (@moves_times _ _ Py)
          (@moves_seq _ _ _ _ _ _ moves_dash
            (@moves_seq _ _ _ _ _ _ (@moves_times _ _ Pm)
              (@moves_seq _ _ _ _ _ _ moves_dash (@moves_times _ _ Pd))))).
Qed.

Lemma den_from_start r s cs y :
  den r (MState 0 s cs) y -> den (Seq Bol r) (MState 0 s cs) y.
Proof. intro H. exists (MState 0 s cs). split; [split; reflexivity|exact H]. Qed.

End RegExpFacts.

(** ** What the file-name pattern matches *)

Module PatternFacts.
Import RegExpFacts.

Lemma reach_start x : reach [] (caps x) x x.
Proof. unfold reach; simpl. repeat split; lia. Qed.

Lemma reach_step w1 w2 cs x z y :
  reach w1 cs x z -> consumes w2 z y -> reach (w1 ++ w2) cs x y.
Proof.
  unfold reach, consumes. intros (R1 & I1 & C1) (R2 & I2 & C2).
  rewrite R1, R2, I2, I1, C2, C1, length_app, <- app_assoc. repeat split; lia.
Qed.

Lemma reach_group i w1 w2 cs x z z' :
  reach w1 cs x z -> consumes w2 z z' ->
  reach (w1 ++ w2) (set_cap i (JStr w2) cs) x (capture i z z').
Proof.
  intros Hr Hc. destruct (capture_consumes i Hc) as (Hc' & ->).
  destruct Hr as (R1 & I1 & C1). destruct Hc' as (R2 & I2 & _).
  unfold reach; simpl in *. rewrite R1, R2, I2, I1, C1, length_app, <- app_assoc.
  repeat split; lia.
Qed.

Lemma den_date x y :
  den (Seq (times 4 (Chr digit)) (Seq dash
        (Seq (times 2 (Chr digit)) (Seq dash (times 2 (Chr digit)))))) x y ->
  exists d, isDate d /\ consumes d x y.
Proof.
  cbn [den]. intros (z1 & H1 & z2 & H2 & z3 & H3 & z4 & H4 & H5).
  apply den_times_chr in H1, H3, H5. apply den_dash in H2, H4.
  destruct H1 as (yy & Ly & Py & Cy), H3 as (mm & Lm & Pm & Cm), H5 as (dd & Ld & Pd & Cd).
  exists (yy ++ lit "-" ++ mm ++ lit "-" ++ dd). split.
  - exists yy, mm, dd. unfold digits. auto 10.
  - repeat (eapply consumes_trans; [eassumption|]). assumption.
Qed.

Lemma reach_eq w w' cs cs' x y :
  reach w cs x y -> w = w' -> cs = cs' -> reach w' cs' x y.
Proof. now intros H <- <-. Qed.

Ltac same_text :=
  repeat (rewrite <- app_assoc || rewrite app_nil_r || simpl); reflexivity.

Lemma logName_den name y :
  den LOG_NAME_RE (MState 0 name (repeat JUndefined 6)) y ->
  exists p, wellFormed p /\ agentOnOneLine p /\ name = spell p
            /\ tl (caps y) = capturesOf p.
Proof.
  unfold LOG_NAME_RE. cbn [den].
  intros (x1 & (_ & ->) & g1 & (z1 & Hdate & ->) & a1 & Hd1 & a2 & Hopt1
          & g3 & (z3 & Hsess & ->) & a4 & Hopt2 & (Hend & ->)).
  pose proof (reach_start (MState 0 name (repeat JUndefined 6))) as R0.
  apply den_date in Hdate. destruct Hdate as (d & Hd & Cd).
  pose proof (reach_group 1 R0 Cd) as R1. clear R0.
  apply den_dash in Hd1. pose proof (reach_step R1 Hd1) as R2. clear R1.
  destruct Hsess as (s & Hs0 & Hsw & Cs).
  assert (exists tm, match tm with Some t => digits 4 t | None => True end
            /\ reach (d ++ lit "-" ++ match tm with Some t => t ++ lit "-" | None => [] end)
                 [JUndefined; JStr d;
                  match tm with Some t => JStr t | None => JUndefined end;
                  JUndefined; JUndefined; JUndefined]
                 (MState 0 name (repeat JUndefined 6)) a2) as (tm & Htm & R3).
  { destruct Hopt1 as [((z & (z' & Ht & ->) & Hdash) & _)| ->].
    - apply den_times_chr in Ht. destruct Ht as (t & Lt & Pt & Ct).
      apply den_dash in Hdash. exists (Some t). split; [split; assumption|].
      apply (reach_eq (reach_step (reach_group 2 R2 Ct) Hdash)); same_text.
    - exists None. split; [exact I|]. apply (reach_eq R2); same_text. }
  clear R2 Hopt1. pose proof (reach_group 3 R3 Cs) as R4. clear R3.
  assert (exists ag, match ag with
                     | Some (ty, id) => ty <> [] /\ forallb dot ty = true /\ words id
                     | None => True
                     end
            /\ reach (d ++ lit "-" ++ match tm with Some t => t ++ lit "-" | None => [] end
                        ++ s ++ match ag with
                                | Some (ty, id) => lit "-subagent-" ++ ty ++ lit "-" ++ id
                                | None => []
                                end)
                 [JUndefined; JStr d;
                  match tm with Some t => JStr t | None => JUndefined end;
                  JStr s;
                  match ag with Some (ty, _) => JStr ty | None => JUndefined end;
                  match ag with Some (_, id) => JStr id | None => JUndefined end]
                 (MState 0 name (repeat JUndefined 6)) a4) as (ag & Hag & R5).
  { destruct Hopt2 as [((z & Htxt & g4 & (z4 & Hty & ->) & b1 & Hdash & (z5 & Hid & ->)) & _)| ->].
    - apply den_text in Htxt. apply den_dash in Hdash.
      destruct Hty as (ty & Hty0 & Pty & Cty). destruct Hid as (id & Hid0 & Pid & Cid).
      exists (Some (ty, id)). split; [unfold words; auto|].
      apply (reach_eq (reach_group 5 (reach_step (reach_group 4 (reach_step R4 Htxt) Cty) Hdash) Cid));
        destruct tm; same_text.
    - exists None. split; [exact I|]. apply (reach_eq R4); destruct tm; same_text. }
  clear R4 Hopt2. destruct R5 as (Rr & _ & Rc). cbn [rest] in Rr.
  rewrite Hend, app_nil_r in Rr.
  exists (Parts d tm s ag). split; [|split; [|split]].
  - unfold wellFormed, words; cbn [p_date p_time p_session p_agent].
    repeat split; try assumption.
    destruct ag as [[ty id]|]; [|exact I]. destruct Hag as (? & ? & ?). now split.
  - unfold agentOnOneLine; cbn [p_agent]. destruct ag as [[ty id]|]; tauto.
  - exact Rr.
  - rewrite Rc. unfold capturesOf; cbn [tl p_date p_time p_session p_agent].
    destruct ag as [[ty id]|]; reflexivity.
Qed.

Lemma execFrom_unfold r n i s :
  execFrom r n i s =
  match matcher r (MState i s (repeat JUndefined (S n))) (fun y => Some y) with
  | Some y => Some (set_cap 0 (JStr (firstn (idx y - i) s)) (caps y))
  | None => match s with [] => None | _ :: s' => execFrom r n (S i) s' end
  end.
Proof. destruct s; reflexivity. Qed.

(** The pattern is anchored: no match starts after index 0. *)
Lemma execFrom_later s : forall i, execFrom LOG_NAME_RE 5 (S i) s = None.
Proof.
  induction s as [|c s IH]; intro i; rewrite execFrom_unfold; unfold LOG_NAME_RE;
    cbn [matcher idx Nat.eqb]; [reflexivity|apply IH].
Qed.

Lemma exec_logName name m :
  exec LOG_NAME_RE 5 name = Some m ->
  exists whole p, wellFormed p /\ agentOnOneLine p /\ name = spell p
                  /\ m = whole :: capturesOf p.
Proof.
  unfold exec. intro H.
  assert (exists y, matcher LOG_NAME_RE (MState 0 name (repeat JUndefined 6)) (fun y => Some y) = Some y
                    /\ m = set_cap 0 (JStr (firstn (idx y - 0) name)) (caps y))
    as (y & Hy & ->).
  { rewrite execFrom_unfold in H.
    destruct (matcher LOG_NAME_RE _ _) as [y|] eqn:E.
    - inversion H; subst. exists y; auto.
    - destruct name; [discriminate|]. now rewrite execFrom_later in H. }
  apply matcher_sound in Hy. destruct Hy as (y' & Hden & Hy'). inversion Hy'; subst y'.
  apply logName_den in Hden. destruct Hden as (p & Hwf & Hdot & Hname & Hcaps).
  destruct (caps y) as [|c0 cs]; [discriminate|]. simpl in Hcaps. subst cs.
  eexists _, p. split; [assumption|]. split; [assumption|].
  split; [assumption|reflexivity].
Qed.

Lemma digits_nonempty n t : digits (S n) t -> t <> [].
Proof. intros (L & _) ->. discriminate. Qed.

(** [parseLogName] returns the fallback record, or the record of parts
    that spell the name. *)
Theorem parseLogName_cases filename :
  let name := replace (lit ".md") [] filename in
  parseLogName filename = fallback name
  \/ exists p, wellFormed p /\ agentOnOneLine p /\ name = spell p
               /\ parseLogName filename = recordOf name p.
Proof.
  intro name. unfold parseLogName. fold name.
  destruct (exec LOG_NAME_RE 5 name) as [m|] eqn:E; [right|left; reflexivity].
  destruct (exec_logName _ E) as (whole & p & Hwf & Hdot & Hname & ->).
  exists p. split; [assumption|]. split; [assumption|]. split; [assumption|].
  destruct p as [d tm s ag]. destruct Hwf as (Hd & Ht & Hs & Ha).
  unfold recordOf, capturesOf; cbn [nth p_date p_time p_session p_agent] in *.
  f_equal.
  - destruct tm as [t|]; [|reflexivity].
    pose proof (digits_nonempty Ht) as Hne. destruct t; [congruence|reflexivity].
  - destruct ag as [[ty id]|]; [|reflexivity]. destruct Ha as (Hty & _).
    destruct ty; [congruence|reflexivity].
  - destruct ag as [[ty id]|]; [|reflexivity]. destruct Ha as (_ & (Hid & _)).
    destruct id; [congruence|reflexivity].
Qed.

(** Every name of the grammar whose agent type is on one line is matched. *)
Lemma logName_matches p :
  wellFormed p -> agentOnOneLine p ->
  exists y, den LOG_NAME_RE (MState 0 (spell p) (repeat JUndefined 6)) y.
Proof.
  destruct p as [d tm s ag]. unfold wellFormed, agentOnOneLine, spell.
  cbn [p_date p_time p_session p_agent].
  intros (Hd & Ht & (Hs0 & Hs) & Ha) Hline.
  assert (exists f, moves (Opt (Seq (Group 2 (times 4 (Chr digit))) dash))
                      (match tm with Some t => t ++ lit "-" | None => [] end) f)
    as (f2 & H2).
  { destruct tm as [t|].
    - destruct Ht as (Lt & Pt). eexists. apply moves_opt.
      + destruct t; discriminate.
      + eapply moves_seq; [|apply moves_dash].
        apply moves_group. rewrite <- Lt. now apply moves_times.
    - eexists. apply moves_skip. }
  assert (exists f, moves (Opt (Seq (text (lit "-subagent-"))
                                 (Seq (Group 4 (Plus Greedy dot))
                                 (Seq dash (Group 5 (Plus Greedy word))))))
                      (match ag with
                       | Some (ty, id) => lit "-subagent-" ++ ty ++ lit "-" ++ id
                       | None => []
                       end) f)
    as (f5 & H5).
  { destruct ag as [[ty id]|].
    - destruct Ha as (Hty & Hid0 & Hid). eexists. apply moves_opt; [discriminate|].
      eapply moves_seq; [apply moves_text|].
      eapply moves_seq; [apply moves_group; now apply moves_plus|].
      eapply moves_seq; [apply moves_dash|].
      apply moves_group. now apply moves_plus.
    - eexists. apply moves_skip. }
  eexists. unfold LOG_NAME_RE. apply den_from_start.
  refine (@ends_seq _ _ _ _ _ _ (moves_group 1 (moves_date Hd))
           (@ends_seq _ _ _ _ _ _ moves_dash
             (@ends_seq _ _ _ _ _ _ H2
               (@ends_seq _ _ _ _ _ _ (moves_group 3 (@moves_plus Lazy word s Hs0 Hs)) _))) 0 _).
  rewrite <- (app_nil_r (match ag with Some _ => _ | None => _ end)).
  apply (@ends_seq _ _ _ _ _ _ H5 ends_eol).
Qed.

Lemma exec_logName_complete p :
  wellFormed p -> agentOnOneLine p -> exists m, exec LOG_NAME_RE 5 (spell p) = Some m.
Proof.
  intros Hwf Hline. destruct (logName_matches Hwf Hline) as (y & Hy).
  destruct (@matcher_complete LOG_NAME_RE _ y (fun y => Some y) y Hy eq_refl) as (r & E).
  unfold exec. rewrite execFrom_unfold.
  rewrite E. eauto.
Qed.

End PatternFacts.

(** ** The order of strings and [sort] *)

Module OrderFacts.

Lemma str_compare_refl a : str_compare a a = Eq.
Proof. induction a as [|x a IH]; simpl; [reflexivity|]. now rewrite N.compare_refl. Qed.


Lemma str_compare_antisym a : forall b, str_compare b a = CompOpp (str_compare a b).
Proof.
  induction a as [|x a IH]; intros [|y b]; simpl; try reflexivity.
  rewrite (N.compare_antisym x y). destruct (N.compare x y); simpl; auto.
Qed.



Lemma str_le_compare a b : str_le a b <-> str_compare a b <> Gt.
Proof.
  unfold str_le, str_ltb. rewrite (str_compare_antisym a b).
  destruct (str_compare a b); simpl; split; congruence.
Qed.



Lemma str_le_refl a : str_le a a.
Proof. rewrite str_le_compare, str_compare_refl. congruence. Qed.


Lemma insert_perm x l : Permutation (insert x l) (x :: l).
Proof.
  induction l as [|y l IH]; simpl; [reflexivity|].
  destruct (str_ltb y x); [|reflexivity].
  rewrite IH. apply perm_swap.
Qed.

Lemma sort_perm l : Permutation (sort l) l.
Proof.
  induction l as [|x l IH]; simpl; [reflexivity|].
  rewrite insert_perm. now constructor.
Qed.







End OrderFacts.

(** ** Facts about the string operations *)

Module StringFacts.

Lemma str_eqb_eq a : forall b, str_eqb a b = true <-> a = b.
Proof.
  induction a as [|x a IH]; intros [|y b]; simpl; split; intro H;
    try discriminate; try reflexivity.
  - apply andb_true_iff in H. destruct H as (E & H).
    apply N.eqb_eq in E. apply IH in H. congruence.
  - inversion H; subst. rewrite N.eqb_refl. simpl. now apply IH.
Qed.

(** *** [trim] *)

Lemma trimStart_keep c s : isTrimmed c = false -> trimStart (c :: s) = c :: s.
Proof. intro H. simpl. now rewrite H. Qed.

Lemma digit_not_trimmed c : digit c = true -> isTrimmed c = false.
Proof.
  unfold digit, isTrimmed, isWhiteSpace, isLineTerminator.
  rewrite andb_true_iff, !N.leb_le. intros (H1 & H2).
  repeat match goal with
         | |- context [N.eqb c ?k] =>
             let E := fresh in
             destruct (N.eqb_spec c k) as [E|E]; [exfalso; lia|clear E]
         end.
  destruct (N.leb_spec 8192 c); [exfalso; lia|reflexivity].
Qed.

Lemma trim_digitEnds s : digitEnds s -> trim s = s.
Proof.
  intros ((c & s' & -> & Hc) & (c' & r & Hr & Hc')). unfold trim.
  rewrite trimStart_keep, Hr by now apply digit_not_trimmed.
  rewrite trimStart_keep, <- Hr by now apply digit_not_trimmed.
  apply rev_involutive.
Qed.

Lemma trim_digitEnds_space s : digitEnds s -> trim (s ++ lit " ") = s.
Proof.
  intros ((c & s' & -> & Hc) & (c' & r & Hr & Hc')). unfold trim.
  rewrite <- app_comm_cons, trimStart_keep by now apply digit_not_trimmed.
  rewrite app_comm_cons, rev_app_distr, Hr.
  change (rev (lit " ") ++ c' :: r) with (32%N :: c' :: r).
  change (trimStart (32%N :: c' :: r)) with (trimStart (c' :: r)).
  rewrite trimStart_keep, <- Hr by now apply digit_not_trimmed.
  apply rev_involutive.
Qed.

Lemma digits_first n s :
  digits (S n) s -> exists c s', s = c :: s' /\ digit c = true.
Proof.
  intros (L & P). destruct s as [|c s']; [discriminate|].
  simpl in P. apply andb_true_iff in P. exists c, s'. tauto.
Qed.

Lemma digits_last n s :
  digits (S n) s -> exists c s', rev s = c :: s' /\ digit c = true.
Proof.
  intros (L & P).
  assert (forallb digit (rev s) = true) as P'.
  { rewrite forallb_forall in *. intros x Hx. apply P. now apply in_rev. }
  assert (length (rev s) = S n) as L' by now rewrite length_rev.
  destruct (rev s) as [|c s']; [discriminate|].
  simpl in P'. apply andb_true_iff in P'. exists c, s'. tauto.
Qed.

Lemma isDate_digitEnds d : isDate d -> digitEnds d.
Proof.
  intros (y & m & dd & -> & Hy & _ & Hd). split.
  - destruct (digits_first Hy) as (c & s' & -> & Hc).
    exists c. eexists. split; [reflexivity|assumption].
  - destruct (digits_last Hd) as (c & s' & E & Hc).
    exists c. eexists. split; [|exact Hc].
    rewrite !rev_app_distr, E. reflexivity.
Qed.

(** *** [path.basename] *)

Lemma untilSlash_plain s : noSlash s -> untilSlash s = s.
Proof.
  unfold noSlash. induction s as [|c s IH]; simpl; [reflexivity|].
  rewrite andb_true_iff, negb_true_iff. intros (-> & H). now rewrite IH.
Qed.

Lemma dropSlashes_plain s : noSlash s -> dropSlashes s = s.
Proof.
  unfold noSlash. destruct s as [|c s]; simpl; [reflexivity|].
  rewrite andb_true_iff, negb_true_iff. now intros (-> & _).
Qed.

Lemma noSlash_rev s : noSlash s -> noSlash (rev s).
Proof.
  unfold noSlash. rewrite !forallb_forall. intros H x Hx. apply H. now apply in_rev.
Qed.

Lemma basename_plain s : noSlash s -> basename s = s.
Proof.
  intro H. unfold basename.
  rewrite (dropSlashes_plain (noSlash_rev H)), (untilSlash_plain (noSlash_rev H)).
  apply rev_involutive.
Qed.

(** *** Replacement texts *)

Lemma getSubstitution_plain m b a f : forall r,
  noDollar f -> getSubstitution m b a (f ++ r) = f ++ getSubstitution m b a r.
Proof.
  unfold noDollar. induction f as [|c f IH]; intros r H; [reflexivity|].
  simpl in H. apply andb_true_iff in H. destruct H as (E & H).
  apply negb_true_iff in E. simpl. rewrite E. f_equal. now apply IH.
Qed.

Lemma getSubstitution_dollar m b a d r :
  getSubstitution m b a (36%N :: d :: r) =
  if N.eqb d 36 then 36%N :: getSubstitution m b a r
  else if N.eqb d 38 then m ++ getSubstitution m b a r
  else if N.eqb d 96 then b ++ getSubstitution m b a r
  else if N.eqb d 39 then a ++ getSubstitution m b a r
  else 36%N :: getSubstitution m b a (d :: r).
Proof. reflexivity. Qed.



(** *** Removing the extension *)

Lemma startsWith_md_inv s :
  startsWith (lit ".md") s = true -> exists s', s = 46%N :: 109%N :: 100%N :: s'.
Proof.
  destruct s as [|a [|b [|c s']]]; try discriminate;
    change (lit ".md") with [46%N; 109%N; 100%N]; cbn [startsWith]; intro H.
  - apply andb_true_iff in H. destruct H as (_ & H). discriminate.
  - apply andb_true_iff in H. destruct H as (_ & H).
    apply andb_true_iff in H. destruct H as (_ & H). discriminate.
  - repeat (apply andb_true_iff in H; destruct H as (?E & H)).
    apply N.eqb_eq in E, E0, E1. subst. now exists s'.
Qed.

(** When [.md] occurs in a file name only as its extension, removing the
    first occurrence removes the extension. *)
Lemma replace_strips_extension stem :
  includes (lit ".md") stem = false ->
  replace (lit ".md") [] (stem ++ lit ".md") = stem.
Proof.
  unfold replace, includes.
  induction stem as [|c stem IH]; intro H; [reflexivity|].
  cbn [splitFirst] in H.
  destruct (startsWith (lit ".md") (c :: stem)) eqn:E; [discriminate|].
  destruct (splitFirst (lit ".md") stem) as [[b a]|] eqn:S; [discriminate|].
  specialize (IH eq_refl).
  change ((c :: stem) ++ lit ".md") with (c :: (stem ++ lit ".md")).
  cbn [splitFirst].
  destruct (startsWith (lit ".md") (c :: stem ++ lit ".md")) eqn:E'.
  - exfalso. apply startsWith_md_inv in E'. destruct E' as (s' & E').
    destruct stem as [|x [|y stem]]; try discriminate.
    inversion E'; subst. discriminate.
  - destruct (splitFirst (lit ".md") (stem ++ lit ".md")) as [[b a]|] eqn:S'.
    + cbn [getSubstitution app] in *. now rewrite <- IH.
    + simpl in IH. congruence.
Qed.

(** *** [decodeURIComponent]: the fuel is enough *)

Lemma continuationOctets_length j : forall s bs s2,
  continuationOctets j s = Some (bs, s2) -> length s2 <= length s.
Proof.
  induction j as [|j IH]; intros s bs s2 H; cbn [continuationOctets] in H.
  - inversion H; subst. lia.
  - destruct s as [|p s1]; [discriminate|].
    destruct (N.eqb p 37); [|discriminate].
    destruct (parseHexOctet s1); [|discriminate].
    destruct (continuationOctets j (skipn 2 s1)) as [[bs' s2']|] eqn:E; [|discriminate].
    inversion H; subst. apply IH in E. rewrite length_skipn in E. simpl. lia.
Qed.

Lemma decodeLoop_fuel n : forall s m,
  length s <= n -> length s <= m -> decodeLoop n s = decodeLoop m s.
Proof.
  induction n as [|n IH]; intros s m Hn Hm.
  - destruct s; [|simpl in Hn; lia]. now destruct m.
  - destruct s as [|c s1]; [now destruct m|].
    destruct m as [|m]; simpl in Hn, Hm; [lia|].
    cbn [decodeLoop].
    pose proof (length_skipn 2 s1) as Lk.
    destruct (N.eqb c 37); [|rewrite (IH s1 m); [reflexivity|lia|lia]].
    destruct (parseHexOctet s1); [|reflexivity].
    destruct (Nat.eqb (leadingOnes n0) 0);
      [rewrite (IH (skipn 2 s1) m); [reflexivity|lia|lia]|].
    destruct (Nat.eqb (leadingOnes n0) 1 || Nat.ltb 4 (leadingOnes n0))%bool; [reflexivity|].
    destruct (continuationOctets _ _) as [[bs s2]|] eqn:E; [|reflexivity].
    apply continuationOctets_length in E.
    destruct (utf8CodePoint _); [|reflexivity].
    rewrite (IH s2 m); [reflexivity|lia|lia].
Qed.

(** A text without a percent sign decodes to itself. *)
Lemma decodeLoop_plain s : forall n,
  length s <= n -> noPercent s -> decodeLoop n s = Normal s.
Proof.
  unfold noPercent. induction s as [|c s IH]; intros n L H; [now destruct n|].
  destruct n as [|n]; simpl in L; [lia|].
  simpl in H. apply andb_true_iff in H. destruct H as (Hc & H).
  apply negb_true_iff in Hc. cbn [decodeLoop]. rewrite Hc.
  rewrite IH by (assumption || lia). reflexivity.
Qed.

Lemma decodeURIComponent_plain s : noPercent s -> decodeURIComponent s = Normal s.
Proof. intro H. now apply decodeLoop_plain. Qed.

End StringFacts.

(** ** The properties of the specification *)

Import PatternFacts OrderFacts StringFacts.

(** *** The request handler *)

Lemma handler_decoded d url decoded :
  decodeURIComponent (toString (js_or (JStr url) (JStr (lit "/")))) = Normal decoded ->
  handler d url = Normal (dispatch d (stripLeadingSlashes decoded)).
Proof. unfold handler. now intros ->. Qed.

(** An exception leaves the handler exactly when decoding the request
    target fails. *)
Lemma handler_throws_iff d url :
  (exists e, handler d url = Throw e)
  <-> exists e, decodeURIComponent (toString (js_or (JStr url) (JStr (lit "/")))) = Throw e.
Proof.
  unfold handler.
  destruct (decodeURIComponent _) as [decoded|e]; simpl; split; intros (e' & H);
    try discriminate; eauto.
Qed.

(** X21.  A request target without a percent sign is always answered:
    no exception leaves the handler. *)
Lemma handler_plain_target d url :
  noPercent url -> exists r, handler d url = Normal r.
Proof.
  intro H. destruct url as [|c url].
  - eexists. reflexivity.
  - eexists. apply handler_decoded. apply (decodeURIComponent_plain H).
Qed.

(** C1.  The specification has every request answered: no failure in the
    request path leaves the handler.  The request target [/%] is a
    malformed escape; decoding it throws a [URIError] outside any [try],
    and the exception leaves the handler without a response, whatever the
    log directory holds. *)
Theorem handler_malformed_escape_throws (d : logdir) :
  handler d (lit "/%") = Throw URIError.
Proof. reflexivity. Qed.

(** *** [parseLogName] *)

(** C8.  The file name of the example parses to its five fields. *)
Theorem parseLogName_example :
  parseLogName (lit "2024-01-15-0900-deploy-subagent-reviewer-7f3a.md")
  = LogMeta (JStr (lit "2024-01-15-0900-deploy-subagent-reviewer-7f3a"))
            (JStr (lit "2024-01-15")) (JStr (lit "09:00")) (JStr (lit "deploy"))
            (JStr (lit "reviewer")) (JStr (lit "7f3a")).
Proof. vm_compute. reflexivity. Qed.

(** X20.  The date of the record is populated exactly for the names
    that, after the removal of [.md], are spelled by well-formed parts
    whose agent type is on one line; every other name is given the
    fallback record. *)
Theorem parseLogName_dated_iff filename :
  (truthy (date (parseLogName filename)) = true
   <-> exists p, wellFormed p /\ agentOnOneLine p
                 /\ replace (lit ".md") [] filename = spell p)
  /\ (truthy (date (parseLogName filename)) = true
      \/ parseLogName filename = fallback (replace (lit ".md") [] filename)).
Proof.
  split; [split|].
  - destruct (parseLogName_cases filename) as [-> | (p & Hwf & Hline & Hname & _)];
      [discriminate|eauto].
  - intros (p & Hwf & Hline & Hname).
    destruct (exec_logName_complete Hwf Hline) as (m & E).
    unfold parseLogName. rewrite Hname, E.
    destruct (exec_logName _ E) as (whole & p' & ((y & mm & dd & Hd & Hy & _) & _) & _ & _ & ->).
    cbn [date nth capturesOf]. rewrite Hd.
    destruct (digits_first Hy) as (c & s' & -> & _). reflexivity.
  - destruct (parseLogName_cases filename) as [E | (p & Hwf & _ & _ & E)];
      [now right|left].
    rewrite E. destruct Hwf as (Hd & _). cbn [recordOf date].
    destruct (p_date p) as [|c d'] eqn:Ed; [|reflexivity].
    destruct (isDate_digitEnds Hd) as ((c & s' & E' & _) & _). discriminate.
Qed.

(** C2.  For every file name, [agentType] and [agentId] are both [null]
    or both strings (and then neither is empty). *)
Theorem parseLogName_agent_pair (filename : jsstring) :
  (agentType (parseLogName filename) = JNull /\ agentId (parseLogName filename) = JNull)
  \/ (exists ty id,
        ty <> [] /\ id <> []
        /\ agentType (parseLogName filename) = JStr ty
        /\ agentId (parseLogName filename) = JStr id).
Proof.
  destruct (parseLogName_cases filename) as [-> | (p & Hwf & _ & _ & ->)].
  - left. split; reflexivity.
  - destruct p as [d tm s [[ty id]|]]; simpl; [right|left; split; reflexivity].
    destruct Hwf as (_ & _ & _ & Hty & Hid & _). simpl in *.
    exists ty, id. repeat split; assumption.
Qed.

(** [parseLogName] is a total function on strings.  When the name that
    [replace] leaves does not conform to the naming grammar, the result
    is the fallback record: that name, empty date, time and session, and
    no agent type or id. *)
Lemma parseLogName_fallback (filename : jsstring) :
  ~ conforms (replace (lit ".md") [] filename) ->
  parseLogName filename = fallback (replace (lit ".md") [] filename).
Proof.
  intro H. destruct (parseLogName_cases filename) as [E | (p & Hwf & _ & Hname & _)];
    [exact E|].
  exfalso. apply H. exists p. split; assumption.
Qed.

Lemma notes_outside_grammar : ~ conforms (lit "notes").
Proof.
  intros (p & (Hd & _) & Hname).
  destruct (isDate_digitEnds Hd) as ((c & s' & E & Hc) & _).
  unfold spell in Hname. rewrite E in Hname.
  inversion Hname; subst c. discriminate.
Qed.

Lemma parseLogName_fallback_witness :
  ~ conforms (replace (lit ".md") [] (lit "notes.md"))
  /\ parseLogName (lit "notes.md") = fallback (lit "notes").
Proof.
  split; [exact notes_outside_grammar|].
  apply (parseLogName_fallback (lit "notes.md")). exact notes_outside_grammar.
Defined.

(** X22.  A file name in which [.md] occurs only as the extension: the
    raw name and the slug are the name without it. *)
Lemma strip_plain_extension stem :
  includes (lit ".md") stem = false ->
  raw (parseLogName (stem ++ lit ".md")) = JStr stem
  /\ slugOf (stem ++ lit ".md") = stem.
Proof.
  intro H. unfold slugOf.
  assert (raw (parseLogName (stem ++ lit ".md"))
          = JStr (replace (lit ".md") [] (stem ++ lit ".md"))) as E.
  { unfold parseLogName. now destruct (exec _ _ _). }
  rewrite E, (replace_strips_extension _ H). now split.
Qed.

(** C6.  The name and the slug are the file name without its extension.
    The code removes the first occurrence of [.md], not the trailing one:
    for [a.md.b.md] the raw name and the slug are [a.b.md] instead of
    [a.md.b], and the view link of that entry, [/a.b.md], is answered with
    404 in a directory that holds the file, where [/a.md.b] would be
    answered with the page.  A name that does not end in [.md] is changed
    as well: [a.mdx] becomes [ax]. *)
Theorem strip_removes_first_occurrence :
  raw (parseLogName (lit "a.md.b.md")) = JStr (lit "a.b.md")
  /\ slugOf (lit "a.md.b.md") = lit "a.b.md"
  /\ lit "a.b.md" <> lit "a.md.b"
  /\ indexFiles (Some [(lit "a.md.b.md", File (lit "text"))]) = [lit "a.md.b.md"]
  /\ handler (Some [(lit "a.md.b.md", File (lit "text"))]) (lit "/a.b.md")
     = Normal notFound
  /\ handler (Some [(lit "a.md.b.md", File (lit "text"))]) (lit "/a.md.b")
     <> Normal notFound
  /\ raw (parseLogName (lit "a.mdx")) = JStr (lit "ax").
Proof.
  repeat split; try (vm_compute; reflexivity); vm_compute; discriminate.
Qed.

(** *** The raw and the rendered route *)

Lemma escapeHtml_metacharacters :
  escapeHtml (lit ("&<>" ++ Q)) = lit "&amp;&lt;&gt;&quot;".
Proof. reflexivity. Qed.

(** C4.  In a directory where [2024-01-15-1430-refactor.md] holds the
    text [# Hello <world>], the raw route answers 200 with exactly the
    octets of that text as plain text, and the rendered route answers 200
    with the HTML template in which the title stands for [TITLE] and the
    escaped text [# Hello &lt;world&gt;] stands for [CONTENT]. *)
Theorem roundtrip_refactor (d : logdir) :
  readFileSync d (lit "2024-01-15-1430-refactor.md") = Normal (lit "# Hello <world>") ->
  handler d (lit "/2024-01-15-1430-refactor.md")
  = Normal (Response 200 (lit "text/plain; charset=utf-8") 15 (lit "*")
                     (lit "# Hello <world>"))
  /\ exists before after,
       splitFirst (lit "CONTENT")
         (replace (lit "TITLE") (lit "2024-01-15-1430-refactor") HTML_TEMPLATE)
       = Some (before, after)
       /\ endsWith (lit ("<pre id=" ++ Q ++ "content" ++ Q ++ ">")) before = true
       /\ startsWith (lit "</pre>") after = true
       /\ handler d (lit "/2024-01-15-1430-refactor")
          = Normal (respond 200 (before ++ lit "# Hello &lt;world&gt;" ++ after)
                            (lit "text/html")).
Proof.
  intro Hfile. split.
  - rewrite (@handler_decoded d _ (lit "/2024-01-15-1430-refactor.md")) by reflexivity.
    change (stripLeadingSlashes (lit "/2024-01-15-1430-refactor.md"))
      with (lit "2024-01-15-1430-refactor.md").
    unfold dispatch.
    change (basename (lit "2024-01-15-1430-refactor.md"))
      with (lit "2024-01-15-1430-refactor.md").
    rewrite Hfile. reflexivity.
  - assert (exists before after,
              splitFirst (lit "CONTENT")
                (replace (lit "TITLE") (lit "2024-01-15-1430-refactor") HTML_TEMPLATE)
              = Some (before, after)
              /\ endsWith (lit ("<pre id=" ++ Q ++ "content" ++ Q ++ ">")) before = true
              /\ startsWith (lit "</pre>") after = true
              /\ replace (lit "CONTENT") (escapeHtml (lit "# Hello <world>"))
                   (replace (lit "TITLE") (escapeHtml (lit "2024-01-15-1430-refactor"))
                      HTML_TEMPLATE)
                 = before ++ lit "# Hello &lt;world&gt;" ++ after)
      as (before & after & Hsplit & Hb & Ha & Hpage).
    { vm_compute. do 2 eexists. repeat split; reflexivity. }
    exists before, after. repeat split; try assumption.
    rewrite (@handler_decoded d _ (lit "/2024-01-15-1430-refactor")) by reflexivity.
    change (stripLeadingSlashes (lit "/2024-01-15-1430-refactor"))
      with (lit "2024-01-15-1430-refactor").
    unfold dispatch.
    change (basename (lit "2024-01-15-1430-refactor") ++ lit ".md")
      with (lit "2024-01-15-1430-refactor.md").
    rewrite Hfile.
    change (basename (lit "2024-01-15-1430-refactor")) with (lit "2024-01-15-1430-refactor").
    cbv zeta. rewrite Hpage. reflexivity.
Qed.

Lemma roundtrip_refactor_witness :
  let d := Some [(lit "2024-01-15-1430-refactor.md", File (lit "# Hello <world>"))] in
  readFileSync d (lit "2024-01-15-1430-refactor.md") = Normal (lit "# Hello <world>")
  /\ handler d (lit "/2024-01-15-1430-refactor.md")
     = Normal (Response 200 (lit "text/plain; charset=utf-8") 15 (lit "*")
                        (lit "# Hello <world>")).
Proof.
  intro d. split; [reflexivity|].
  apply (roundtrip_refactor d). reflexivity.
Defined.

(** *** The index *)

Lemma time_digitEnds t : digits 4 t -> digitEnds (firstn 2 t ++ lit ":" ++ skipn 2 t).
Proof.
  intros (L & P).
  destruct t as [|a [|b [|c [|e [|]]]]]; try discriminate.
  simpl in P. repeat (apply andb_true_iff in P; destruct P as (? & P)).
  split; [exists a|exists e]; eexists; (split; [reflexivity|assumption]).
Qed.

Lemma digitEnds_app a b c : digitEnds a -> digitEnds c -> digitEnds (a ++ b ++ c).
Proof.
  intros ((x & a' & -> & Hx) & _) (_ & (y & c' & E & Hy)). split.
  - exists x. eexists. split; [reflexivity|assumption].
  - exists y. eexists. split; [|exact Hy]. rewrite !rev_app_distr, E. reflexivity.
Qed.

(** C5, as the code has it.  For every file name whose parsed record has a
    non-empty date, the label is the date, then a space and the time only
    when the time is not empty, then [ &mdash; ] and the session: the
    date-and-time text is trimmed, so an empty time leaves no space
    behind the date. *)
Theorem baseLabel_dated (filename : jsstring) :
  let meta := parseLogName filename in
  truthy (date meta) = true ->
  baseLabel meta
  = toString (date meta)
    ++ match toString (time meta) with
       | [] => []
       | _ :: _ => lit " " ++ toString (time meta)
       end
    ++ lit " &mdash; " ++ toString (session meta).
Proof.
  intro meta. subst meta.
  destruct (parseLogName_cases filename) as [-> | (p & Hwf & _ & _ & ->)];
    [discriminate|].
  intro Hdate. unfold baseLabel. rewrite Hdate.
  destruct p as [d tm s ag]. destruct Hwf as (Hd & Ht & _).
  cbn [recordOf date time session toString p_date p_time p_session] in *.
  apply isDate_digitEnds in Hd.
  destruct tm as [t|].
  - pose proof (time_digitEnds Ht) as Htime.
    rewrite (trim_digitEnds (digitEnds_app (lit " ") Hd Htime)).
    destruct Htime as ((c & s' & -> & _) & _). now rewrite <- !app_assoc.
  - rewrite app_nil_r, (trim_digitEnds_space Hd). reflexivity.
Qed.

Lemma baseLabel_dated_witness :
  truthy (date (parseLogName (lit "2024-01-15-1430-refactor.md"))) = true
  /\ baseLabel (parseLogName (lit "2024-01-15-1430-refactor.md"))
     = lit "2024-01-15 14:30 &mdash; refactor".
Proof.
  split; [reflexivity|].
  exact (baseLabel_dated (lit "2024-01-15-1430-refactor.md") eq_refl).
Defined.

(** C5, as the specification has it: the label would be the date, a
    space, the time, [ &mdash; ] and the session even when the time is
    empty.  For [2024-01-15-notes.md] the time is empty and the label has
    no space left behind the date. *)
Lemma label_keeps_no_trailing_space :
  let meta := parseLogName (lit "2024-01-15-notes.md") in
  truthy (date meta) = true
  /\ toString (time meta) = []
  /\ baseLabel meta = lit "2024-01-15 &mdash; notes"
  /\ baseLabel meta
     <> toString (date meta) ++ lit " " ++ toString (time meta)
        ++ lit " &mdash; " ++ toString (session meta).
Proof.
  vm_compute. repeat split; discriminate.
Qed.


Lemma indexFiles_listed d f : In f (indexFiles d) -> listed f = true.
Proof.
  unfold indexFiles. rewrite <- in_rev. intro H.
  apply (Permutation_in _ (sort_perm _)) in H.
  destruct d as [entries|]; simpl in H; [|destruct H].
  apply filter_In in H. tauto.
Qed.

(** *** The routes of the handler *)

Lemma dispatch_raw d p :
  p <> [] -> endsWith (lit ".md") p = true ->
  dispatch d p = match readFileSync d (basename p) with
                 | Normal content => respond 200 content (lit "text/plain; charset=utf-8")
                 | Throw _ => notFound
                 end.
Proof.
  intros Hp He. unfold dispatch. rewrite He. destruct p; [congruence|reflexivity].
Qed.

Lemma dispatch_rendered d p :
  p <> [] -> endsWith (lit ".md") p = false ->
  dispatch d p = match readFileSync d (basename p ++ lit ".md") with
                 | Normal content =>
                     respond 200
                       (replace (lit "CONTENT") (escapeHtml content)
                          (replace (lit "TITLE") (escapeHtml (basename p)) HTML_TEMPLATE))
                       (lit "text/html")
                 | Throw _ => notFound
                 end.
Proof.
  intros Hp He. unfold dispatch. rewrite He. destruct p; [congruence|reflexivity].
Qed.

Lemma startsWith_dot s :
  startsWith (lit ".") s = true -> exists s', s = 46%N :: s'.
Proof.
  destruct s as [|c s']; [discriminate|].
  change (startsWith (lit ".") (c :: s')) with (N.eqb 46 c && true).
  rewrite andb_true_r. intro E. apply N.eqb_eq in E. subst c. now exists s'.
Qed.

Lemma handler_dot_name d url name :
  startsWith (lit ".") name = true ->
  decodeURIComponent url = Normal (lit "/" ++ name) ->
  handler d url = Normal (dispatch d name).
Proof.
  intros Hdot H.
  assert (stripLeadingSlashes (lit "/" ++ name) = name) as E.
  { destruct (startsWith_dot _ Hdot) as (s' & ->). reflexivity. }
  rewrite (@handler_decoded d url (lit "/" ++ name)); [now rewrite E|].
  destruct url as [|u url]; [discriminate|exact H].
Qed.

(** *** File names in the index page *)


(** ** Further properties of the program *)

(** *** [escapeHtml] *)

Module EscapeFacts.

Lemma flat_map_twice (f g : jschar -> jsstring) s :
  flat_map g (flat_map f s) = flat_map (fun x => flat_map g (f x)) s.
Proof.
  induction s as [|x s IH]; simpl; [reflexivity|].
  now rewrite flat_map_app, IH.
Qed.

Lemma escapeChar_spec c :
  replaceAllChar 34%N (lit "&quot;")
    (replaceAllChar 62%N (lit "&gt;")
       (replaceAllChar 60%N (lit "&lt;")
          (replaceAllChar 38%N (lit "&amp;") [c]))) = escapeChar c.
Proof.
  unfold escapeChar, replaceAllChar. cbn [flat_map]. rewrite app_nil_r.
  destruct (N.eqb_spec c 38) as [->|H38]; [reflexivity|].
  cbn [flat_map]. rewrite app_nil_r.
  destruct (N.eqb_spec c 60) as [->|H60]; [reflexivity|].
  cbn [flat_map]. rewrite app_nil_r.
  destruct (N.eqb_spec c 62) as [->|H62]; [reflexivity|].
  cbn [flat_map]. rewrite app_nil_r.
  destruct (N.eqb_spec c 34) as [->|H34]; reflexivity.
Qed.

Lemma escapeHtml_app a b : escapeHtml (a ++ b) = escapeHtml a ++ escapeHtml b.
Proof. unfold escapeHtml, replaceAllChar. now rewrite !flat_map_app. Qed.

Lemma escapeHtml_cons c s : escapeHtml (c :: s) = escapeChar c ++ escapeHtml s.
Proof.
  change (c :: s) with ([c] ++ s). rewrite escapeHtml_app.
  unfold escapeHtml at 1. now rewrite escapeChar_spec.
Qed.

Lemma escapeChar_cases c :
  (c = 38%N /\ escapeChar c = lit "&amp;")
  \/ (c = 60%N /\ escapeChar c = lit "&lt;")
  \/ (c = 62%N /\ escapeChar c = lit "&gt;")
  \/ (c = 34%N /\ escapeChar c = lit "&quot;")
  \/ (c <> 38%N /\ c <> 60%N /\ c <> 62%N /\ c <> 34%N /\ escapeChar c = [c]).
Proof.
  unfold escapeChar.
  destruct (N.eqb_spec c 38); [auto|].
  destruct (N.eqb_spec c 60); [auto|].
  destruct (N.eqb_spec c 62); [auto|].
  destruct (N.eqb_spec c 34); [auto 6|]. auto 10.
Qed.

(** X1.  The four replacements of [escapeHtml], made one after the other,
    amount to one pass over the text: every character is replaced by its
    entity or kept, and no entity is escaped a second time. *)
Theorem escapeHtml_one_pass (text : jsstring) :
  escapeHtml text = flat_map escapeChar text.
Proof.
  induction text as [|c s IH]; [reflexivity|].
  rewrite escapeHtml_cons, IH. reflexivity.
Qed.

(** X2.  The escaped text holds no angle bracket and no double quote. *)
Theorem escapeHtml_no_markup (text : jsstring) (c : jschar) :
  In c (escapeHtml text) -> c <> 60%N /\ c <> 62%N /\ c <> 34%N.
Proof.
  induction text as [|x s IH]; [intros []|].
  rewrite escapeHtml_cons, in_app_iff. intros [H|H]; [|now apply IH].
  destruct (escapeChar_cases x) as [(_ & E)|[(_ & E)|[(_ & E)|[(_ & E)|(? & ? & ? & ? & E)]]]];
    rewrite E in H; simpl in H;
    repeat (destruct H as [<-|H]; [repeat split; (discriminate || congruence)|]);
    destruct H.
Qed.

Lemma escapeHtml_no_markup_witness :
  In 38%N (escapeHtml (lit "a<b")) /\ 38%N <> 60%N.
Proof.
  assert (In 38%N (escapeHtml (lit "a<b"))) as H by (vm_compute; right; left; reflexivity).
  split; [exact H|]. exact (proj1 (@escapeHtml_no_markup (lit "a<b") 38%N H)).
Defined.

(** X3.  [escapeHtml] loses nothing: two texts with the same escaped form
    are the same text. *)
Theorem escapeHtml_injective (a b : jsstring) :
  escapeHtml a = escapeHtml b -> a = b.
Proof.
  revert b. induction a as [|x a IH]; intros [|y b] H.
  - reflexivity.
  - rewrite escapeHtml_cons in H. exfalso.
    destruct (escapeChar_cases y) as [(_ & E)|[(_ & E)|[(_ & E)|[(_ & E)|(_ & _ & _ & _ & E)]]]];
      rewrite E in H; discriminate.
  - rewrite escapeHtml_cons in H. exfalso.
    destruct (escapeChar_cases x) as [(_ & E)|[(_ & E)|[(_ & E)|[(_ & E)|(_ & _ & _ & _ & E)]]]];
      rewrite E in H; discriminate.
  - rewrite !escapeHtml_cons in H.
    destruct (escapeChar_cases x) as [(-> & E)|[(-> & E)|[(-> & E)|[(-> & E)|(? & ? & ? & ? & E)]]]];
    destruct (escapeChar_cases y) as [(-> & E')|[(-> & E')|[(-> & E')|[(-> & E')|(? & ? & ? & ? & E')]]]];
      rewrite ?E, ?E' in H; try discriminate;
      try (injection H as H; f_equal; now apply IH);
      try (injection H as H0 H; congruence);
      try (injection H as -> H; f_equal; now apply IH);
      exfalso; simpl in H; inversion H; congruence.
Qed.

Lemma escapeHtml_injective_witness :
  escapeHtml (lit "a&b") = escapeHtml (lit "a&b") /\ lit "a&b" = lit "a&b".
Proof.
  split; [reflexivity|]. exact (@escapeHtml_injective (lit "a&b") (lit "a&b") eq_refl).
Defined.

End EscapeFacts.

(** *** [parseLogName] and the grammar *)

Module ParseFacts.

Lemma app_same_length (a a' b b' : jsstring) :
  length a = length a' -> a ++ b = a' ++ b' -> a = a' /\ b = b'.
Proof.
  revert a'. induction a as [|x a IH]; intros [|y a'] L H; try discriminate.
  - now split.
  - simpl in L, H. inversion H; subst. destruct (IH a') as (-> & ->); auto.
Qed.

Lemma word_split (w w' r r' : jsstring) :
  forallb word w = true -> forallb word w' = true -> stops r -> stops r' ->
  w ++ r = w' ++ r' -> w = w' /\ r = r'.
Proof.
  revert w'. induction w as [|x w IH]; intros [|y w'] Hw Hw' Hr Hr' H; simpl in *.
  - now split.
  - subst r. simpl in Hr. apply andb_true_iff in Hw'. destruct Hw' as (Hy & _). congruence.
  - subst r'. simpl in Hr'. apply andb_true_iff in Hw. destruct Hw as (Hx & _). congruence.
  - inversion H; subst. apply andb_true_iff in Hw, Hw'.
    destruct Hw as (_ & Hw), Hw' as (_ & Hw').
    destruct (IH w' Hw Hw' Hr Hr' H2) as (-> & ->). now split.
Qed.

Lemma digit_word c : digit c = true -> word c = true.
Proof. unfold word. now intros ->. Qed.

Lemma digits_words n s : digits n s -> forallb word s = true.
Proof.
  intros (_ & H). rewrite forallb_forall in *. intros x Hx. apply digit_word. now apply H.
Qed.

Lemma isDate_length d : isDate d -> length d = 10.
Proof.
  intros (y & m & dd & -> & (Ly & _) & (Lm & _) & (Ld & _)).
  rewrite !length_app, Ly, Lm, Ld. reflexivity.
Qed.

Lemma agentText_stops ag : stops (agentText ag).
Proof. destruct ag as [[ty id]|]; simpl; auto. Qed.

Lemma agent_unique ag ag' :
  match ag with Some (ty, id) => ty <> [] /\ words id | None => True end ->
  match ag' with Some (ty, id) => ty <> [] /\ words id | None => True end ->
  agentText ag = agentText ag' -> ag = ag'.
Proof.
  destruct ag as [[ty id]|], ag' as [[ty' id']|]; intros H H' E;
    try reflexivity; try discriminate.
  destruct H as (_ & _ & Hid), H' as (_ & _ & Hid').
  unfold agentText in E. apply app_inv_head in E.
  apply (f_equal (@rev jschar)) in E. rewrite !rev_app_distr in E.
  rewrite <- !app_assoc in E.
  assert (forall s, forallb word s = true -> forallb word (rev s) = true) as Hrev.
  { intros s Hs. rewrite forallb_forall in *. intros x Hx. apply Hs. now apply in_rev. }
  destruct (@word_split (rev id) (rev id') (rev (lit "-") ++ rev ty) (rev (lit "-") ++ rev ty'))
    as (Ei & Et); auto; try reflexivity.
  apply app_inv_head in Et.
  apply (f_equal (@rev jschar)) in Ei, Et. rewrite !rev_involutive in Ei, Et. congruence.
Qed.

Lemma spell_eq p :
  spell p = p_date p ++ lit "-" ++ timeText (p_time p) ++ p_session p ++ agentText (p_agent p).
Proof. reflexivity. Qed.

Lemma spell_unique p p' :
  wellFormed p -> wellFormed p' -> unambiguous p -> spell p = spell p' -> p = p'.
Proof.
  rewrite !spell_eq.
  destruct p as [d tm s ag], p' as [d' tm' s' ag'].
  unfold wellFormed, unambiguous; cbn [p_date p_time p_session p_agent].
  intros (Hd & Ht & (Hs0 & Hs) & Ha) (Hd' & Ht' & (Hs0' & Hs') & Ha') Hu E.
  assert (length d = length d') as Ld
    by (rewrite (isDate_length Hd), (isDate_length Hd'); reflexivity).
  destruct (app_same_length d d' _ _ Ld E) as (<- & E1). clear E Ld.
  apply app_inv_head in E1.
  pose proof (agentText_stops ag) as Sa. pose proof (agentText_stops ag') as Sa'.
  destruct tm as [t|], tm' as [t'|]; unfold timeText in E1.
  - rewrite <- !app_assoc in E1.
    assert (length t = length t') as Lt by (destruct Ht, Ht'; congruence).
    destruct (app_same_length t t' _ _ Lt E1) as (<- & E2).
    apply app_inv_head in E2.
    destruct (word_split s s' _ _ Hs Hs' Sa Sa' E2) as (<- & E3).
    now rewrite (agent_unique ag ag' Ha Ha' E3).
  - exfalso. rewrite <- !app_assoc in E1. simpl app at 3 in E1.
    assert (stops (lit "-" ++ s ++ agentText ag)) as S1 by reflexivity.
    destruct (word_split t s' _ _ (digits_words Ht) Hs' S1 Sa' E1) as (Et & E2).
    destruct ag' as [[ty' id']|]; [|discriminate].
    unfold agentText at 2 in E2.
    change (lit "-subagent-" ++ ty' ++ lit "-" ++ id')
      with (lit "-" ++ lit "subagent" ++ lit "-" ++ ty' ++ lit "-" ++ id') in E2.
    apply app_inv_head in E2.
    assert (stops (lit "-" ++ ty' ++ lit "-" ++ id')) as S2 by reflexivity.
    assert (forallb word (lit "subagent") = true) as W by reflexivity.
    destruct (word_split s (lit "subagent") _ _ Hs W Sa S2 E2) as (Es & _).
    contradiction.
  - exfalso. rewrite <- !app_assoc in E1. simpl app at 1 in E1.
    assert (stops (lit "-" ++ s' ++ agentText ag')) as S1 by reflexivity.
    destruct (word_split s t' _ _ Hs (digits_words Ht') Sa S1 E1) as (Es & _).
    subst s. contradiction.
  - simpl app in E1.
    destruct (word_split s s' _ _ Hs Hs' Sa Sa' E1) as (<- & E3).
    now rewrite (agent_unique ag ag' Ha Ha' E3).
Qed.

Lemma isDate_nonempty d : isDate d -> d <> [].
Proof. intros H ->. apply isDate_length in H. discriminate. Qed.

(** A name that the pattern matches gives the record of parts that spell it. *)
Lemma parseLogName_matched filename m :
  exec LOG_NAME_RE 5 (replace (lit ".md") [] filename) = Some m ->
  exists p, wellFormed p /\ agentOnOneLine p
            /\ replace (lit ".md") [] filename = spell p
            /\ parseLogName filename = recordOf (replace (lit ".md") [] filename) p.
Proof.
  intro E.
  destruct (parseLogName_cases filename) as [F | H]; [|exact H].
  exfalso. unfold parseLogName in F. rewrite E in F.
  destruct (exec_logName _ E) as (whole & p & (Hd & _) & _ & _ & ->).
  unfold fallback in F. inversion F as [[Hdate _ _ _ _]].
  cbn [nth capturesOf] in Hdate. inversion Hdate as [Hd0].
  exact (isDate_nonempty Hd Hd0).
Qed.

End ParseFacts.

Import ParseFacts.

(** X4.  The time of a record is empty or has the form [HH:MM]: two
    digits, a colon, two digits. *)
Theorem parseLogName_time_shape (filename : jsstring) :
  time (parseLogName filename) = JStr []
  \/ exists a b c d,
       forallb digit [a; b; c; d] = true
       /\ time (parseLogName filename) = JStr [a; b; 58%N; c; d].
Proof.
  destruct (parseLogName_cases filename) as [-> | (p & (_ & Ht & _) & _ & _ & ->)];
    [left; reflexivity|].
  destruct p as [d [t|] s ag]; cbn [recordOf time p_time] in *; [right|left; reflexivity].
  destruct Ht as (L & P).
  destruct t as [|a [|b [|c [|e [|]]]]]; try discriminate.
  exists a, b, c, e. split; [exact P|reflexivity].
Qed.

(** X5.  The fields of a record with a date spell its raw name: the raw
    name is the date, a dash, the time without its colon and a dash when
    there is a time, the session, and [-subagent-], the agent type, a
    dash and the agent id when there is an agent. *)
Theorem parseLogName_fields_spell_name (filename : jsstring) :
  truthy (date (parseLogName filename)) = true ->
  exists p,
    wellFormed p
    /\ parseLogName filename = recordOf (spell p) p
    /\ raw (parseLogName filename) = JStr (spell p).
Proof.
  destruct (parseLogName_cases filename) as [-> | (p & Hwf & _ & Hname & E)];
    [discriminate|].
  intros _. exists p. rewrite E, Hname. split; [exact Hwf|]. split; reflexivity.
Qed.

Lemma parseLogName_fields_spell_name_witness :
  truthy (date (parseLogName (lit "2024-01-15-notes.md"))) = true
  /\ exists p,
       wellFormed p
       /\ parseLogName (lit "2024-01-15-notes.md") = recordOf (spell p) p
       /\ raw (parseLogName (lit "2024-01-15-notes.md")) = JStr (spell p).
Proof.
  split; [reflexivity|].
  exact (@parseLogName_fields_spell_name (lit "2024-01-15-notes.md") eq_refl).
Defined.

(** X6.  Names of the grammar are parsed back to their parts.  For
    well-formed parts with a one-line agent type that are not of the one
    ambiguous kind: when the name that [replace] leaves, the file name
    without its first [.md], is spelled by the parts, the record holds
    exactly these parts; and so does the record of the name that the
    parts spell, followed by the extension [.md], when that name holds
    no [.md] of its own. *)
Theorem parseLogName_recovers (filename : jsstring) (p : parts) :
  wellFormed p -> agentOnOneLine p -> unambiguous p ->
  (replace (lit ".md") [] filename = spell p ->
   parseLogName filename = recordOf (spell p) p)
  /\ (includes (lit ".md") (spell p) = false ->
      parseLogName (spell p ++ lit ".md") = recordOf (spell p) p).
Proof.
  intros Hwf Hline Hu.
  assert (forall name : jsstring,
            replace (lit ".md") [] name = spell p ->
            parseLogName name = recordOf (spell p) p) as H.
  { intros name Hname.
    destruct (exec_logName_complete Hwf Hline) as (m & E).
    rewrite <- Hname in E.
    destruct (parseLogName_matched name E) as (p' & Hwf' & _ & Hname' & ->).
    rewrite Hname in Hname'.
    rewrite <- (spell_unique Hwf Hwf' Hu Hname'). now rewrite Hname. }
  split; [apply H|]. intro Hi. apply H. exact (replace_strips_extension _ Hi).
Qed.

Lemma example_parts_wellFormed :
  let p := Parts (lit "2024-01-15") (Some (lit "0900")) (lit "deploy")
                 (Some (lit "reviewer", lit "7f3a")) in
  wellFormed p /\ agentOnOneLine p /\ unambiguous p.
Proof.
  intro p. split; [|split].
  - split; [|split; [|split]].
    + exists (lit "2024"), (lit "01"), (lit "15"). repeat split.
    + split; reflexivity.
    + split; [discriminate|reflexivity].
    + split; [discriminate|split; [discriminate|reflexivity]].
  - reflexivity.
  - discriminate.
Qed.

Lemma parseLogName_recovers_witness :
  parseLogName (lit "2024-01-15-0900-deploy-subagent-reviewer-7f3a.md")
  = recordOf (lit "2024-01-15-0900-deploy-subagent-reviewer-7f3a")
      (Parts (lit "2024-01-15") (Some (lit "0900")) (lit "deploy")
             (Some (lit "reviewer", lit "7f3a"))).
Proof.
  destruct example_parts_wellFormed as (Hwf & Hline & Hu).
  exact (proj2 (@parseLogName_recovers [] _ Hwf Hline Hu) eq_refl).
Defined.

(** *** Texts, the index and the handler *)

Module TextFacts.

Lemma startsWith_app p : forall s, startsWith p s = true -> s = p ++ skipn (length p) s.
Proof.
  induction p as [|a p IH]; intros s H; [reflexivity|].
  destruct s as [|b s]; [discriminate|]. simpl in H.
  apply andb_true_iff in H. destruct H as (E & H). apply N.eqb_eq in E. subst b.
  simpl. f_equal. now apply IH.
Qed.


Lemma splitFirst_app pat : forall s before after,
  splitFirst pat s = Some (before, after) -> s = before ++ pat ++ after.
Proof.
  induction s as [|c s IH]; intros before after H; simpl in H.
  - destruct (startsWith pat []) eqn:E; [|discriminate].
    inversion H; subst. now apply startsWith_app in E.
  - destruct (startsWith pat (c :: s)) eqn:E.
    + inversion H; subst. now apply startsWith_app in E.
    + destruct (splitFirst pat s) as [[b a]|]; [|discriminate].
      inversion H; subst. simpl. f_equal. now apply IH.
Qed.


Lemma endsWith_app pat s : endsWith pat s = true -> exists a, s = a ++ pat.
Proof.
  unfold endsWith. rewrite andb_true_iff, str_eqb_eq. intros (_ & E).
  exists (firstn (length s - length pat) s).
  rewrite <- (firstn_skipn (length s - length pat) s) at 1. now rewrite E.
Qed.

Lemma endsWith_suffix pat a : endsWith pat (a ++ pat) = true.
Proof.
  unfold endsWith. rewrite length_app, andb_true_iff. split; [apply Nat.leb_le; lia|].
  apply str_eqb_eq. replace (length a + length pat - length pat) with (length a) by lia.
  rewrite skipn_app, skipn_all, Nat.sub_diag. reflexivity.
Qed.


(** Texts without a dollar sign. *)
Lemma noDollar_app a b : noDollar (a ++ b) <-> noDollar a /\ noDollar b.
Proof. unfold noDollar. rewrite forallb_app, andb_true_iff. reflexivity. Qed.

Lemma noDollar_rev s : noDollar s -> noDollar (rev s).
Proof.
  unfold noDollar. rewrite !forallb_forall. intros H x Hx. apply H. now apply in_rev.
Qed.

Lemma noDollar_trimStart s : noDollar s -> noDollar (trimStart s).
Proof.
  unfold noDollar. induction s as [|c s IH]; intro H; simpl; [reflexivity|].
  destruct (isTrimmed c); [|exact H].
  simpl in H. apply andb_true_iff in H. now apply IH.
Qed.

Lemma noDollar_trim s : noDollar s -> noDollar (trim s).
Proof.
  intro H. unfold trim.
  now apply noDollar_rev, noDollar_trimStart, noDollar_rev, noDollar_trimStart.
Qed.

Lemma noDollar_firstn n s : noDollar s -> noDollar (firstn n s).
Proof.
  intro H. rewrite <- (firstn_skipn n s) in H. now apply noDollar_app in H.
Qed.

Lemma noDollar_skipn n s : noDollar s -> noDollar (skipn n s).
Proof.
  intro H. rewrite <- (firstn_skipn n s) in H. now apply noDollar_app in H.
Qed.

Lemma noDollar_strip pat s : noDollar s -> noDollar (replace pat [] s).
Proof.
  intro H. unfold replace.
  destruct (splitFirst pat s) as [[b a]|] eqn:E; [|exact H].
  apply splitFirst_app in E. subst s.
  apply noDollar_app in H. destruct H as (Hb & H). apply noDollar_app in H.
  simpl. apply noDollar_app. tauto.
Qed.

Lemma noDollar_join sep l :
  noDollar sep -> (forall x, In x l -> noDollar x) -> noDollar (join sep l).
Proof.
  intros Hs. induction l as [|x l IH]; intro H; [reflexivity|].
  destruct l as [|y l]; [apply H; now left|].
  change (join sep (x :: y :: l)) with (x ++ sep ++ join sep (y :: l)).
  rewrite !noDollar_app. repeat split; auto.
  - apply H. now left.
  - apply IH. intros z Hz. apply H. now right.
Qed.

Lemma getSubstitution_noDollar m b a r : noDollar r -> getSubstitution m b a r = r.
Proof.
  intro H. rewrite <- (app_nil_r r) at 1. rewrite getSubstitution_plain by assumption.
  simpl. apply app_nil_r.
Qed.

End TextFacts.

Module IndexFacts.
Import TextFacts.

Lemma spell_noDollar p :
  noDollar (spell p) ->
  noDollar (p_date p)
  /\ noDollar (match p_time p with Some t => firstn 2 t ++ lit ":" ++ skipn 2 t | None => [] end)
  /\ noDollar (p_session p)
  /\ match p_agent p with Some (ty, id) => noDollar ty /\ noDollar id | None => True end.
Proof.
  destruct p as [d tm s ag]. unfold spell; cbn [p_date p_time p_session p_agent].
  rewrite !noDollar_app. intros (Hd & _ & Ht & Hs & Ha). repeat split; try assumption.
  - destruct tm as [t|]; [|reflexivity]. apply noDollar_app in Ht. destruct Ht as (Ht & _).
    rewrite !noDollar_app. repeat split; [now apply noDollar_firstn|now apply noDollar_skipn].
  - destruct ag as [[ty id]|]; [|exact I]. rewrite !noDollar_app in Ha. tauto.
Qed.

Lemma entryLabel_noDollar f : noDollar f -> noDollar (entryLabel (parseLogName f)).
Proof.
  intro H. pose proof (noDollar_strip (lit ".md") H) as Hname.
  destruct (parseLogName_cases f) as [-> | (p & _ & _ & Hp & ->)]; [exact Hname|].
  rewrite Hp in Hname. apply spell_noDollar in Hname.
  destruct Hname as (Hd & Ht & Hs & Ha).
  destruct p as [d tm s ag]. cbn [p_date p_time p_session p_agent] in *.
  assert (noDollar (baseLabel (recordOf (replace (lit ".md") [] f) (Parts d tm s ag)))) as Hb.
  { unfold baseLabel. cbn [recordOf date time session raw toString p_date p_time p_session].
    destruct (truthy (JStr d)).
    - rewrite !noDollar_app. repeat split; try assumption; try reflexivity.
      apply noDollar_trim. rewrite !noDollar_app. repeat split; assumption || reflexivity.
    - now apply noDollar_strip. }
  unfold entryLabel. destruct ag as [[ty id]|]; cbn [recordOf agentType agentId p_agent] in *.
  - destruct Ha as (Hty & Hid). destruct (truthy (JStr ty)); [|exact Hb].
    rewrite !noDollar_app. repeat split; try assumption; try reflexivity.
    unfold js_or. destruct (truthy (JStr id)); [exact Hid|reflexivity].
  - exact Hb.
Qed.

Lemma renderEntry_noDollar f : noDollar f -> noDollar (renderEntry f).
Proof.
  intro H. unfold renderEntry. cbv zeta. rewrite !noDollar_app.
  repeat split; try reflexivity; try assumption.
  - now apply entryLabel_noDollar.
  - now apply noDollar_strip.
Qed.

(** The halves of the index template around [ENTRIES]. *)
Lemma index_template_halves :
  exists before after,
    splitFirst (lit "ENTRIES") INDEX_TEMPLATE = Some (before, after)
    /\ INDEX_TEMPLATE = before ++ lit "ENTRIES" ++ after.
Proof.
  destruct (splitFirst (lit "ENTRIES") INDEX_TEMPLATE) as [[before after]|] eqn:E;
    [|vm_compute in E; discriminate].
  exists before, after. split; [reflexivity|]. now apply splitFirst_app.
Qed.


(** X8.  When the directory cannot be read, or none of its names is
    listed, the index page is the template with the empty-state
    paragraph in the place of [ENTRIES]. *)
Theorem buildIndex_empty_state (d : logdir) :
  match d with
  | Some entries => forall e, In e entries -> listed (fst e) = false
  | None => True
  end ->
  exists before after,
    INDEX_TEMPLATE = before ++ lit "ENTRIES" ++ after
    /\ buildIndex d = before ++ EMPTY_STATE ++ after.
Proof.
  intro H.
  assert (indexFiles d = []) as E.
  { unfold indexFiles. destruct d as [entries|]; [|reflexivity]. simpl.
    replace (filter listed (map fst entries)) with (@nil jsstring); [reflexivity|].
    symmetry. induction entries as [|e es IH]; [reflexivity|]. simpl.
    rewrite (H e) by now left. apply IH. intros e' He'. apply H. now right. }
  destruct index_template_halves as (before & after & S & T).
  exists before, after. split; [exact T|].
  unfold buildIndex. rewrite E. unfold replace. rewrite S.
  now rewrite getSubstitution_noDollar by reflexivity.
Qed.

Lemma buildIndex_empty_state_witness :
  exists before after,
    INDEX_TEMPLATE = before ++ lit "ENTRIES" ++ after
    /\ buildIndex (Some [(lit ".hidden.md", File []); (lit "readme.txt", File [])])
       = before ++ EMPTY_STATE ++ after.
Proof.
  apply (@buildIndex_empty_state (Some [(lit ".hidden.md", File []); (lit "readme.txt", File [])])).
  intros e [<-|[<-|[]]]; reflexivity.
Defined.

(** X9.  When no listed name holds a dollar sign, the index page is the
    template with the entries, joined by line feeds, in the place of
    [ENTRIES]. *)
Theorem buildIndex_page (d : logdir) :
  indexFiles d <> [] ->
  (forall f, In f (indexFiles d) -> noDollar f) ->
  exists before after,
    INDEX_TEMPLATE = before ++ lit "ENTRIES" ++ after
    /\ buildIndex d = before ++ join [LF] (indexParts d) ++ after.
Proof.
  intros Hne H.
  destruct index_template_halves as (before & after & S & T).
  exists before, after. split; [exact T|].
  unfold buildIndex. destruct (indexFiles d) as [|g l] eqn:E; [congruence|].
  unfold replace. rewrite S. rewrite getSubstitution_noDollar; [reflexivity|].
  apply noDollar_join; [reflexivity|].
  unfold indexParts. rewrite E. intros x Hx. apply in_map_iff in Hx.
  destruct Hx as (f & <- & Hf). apply renderEntry_noDollar. now apply H.
Qed.

Lemma buildIndex_page_witness :
  let d := Some [(lit "notes.md", File []); (lit "2024-01-15-plan.md", File [])] in
  indexFiles d = [lit "notes.md"; lit "2024-01-15-plan.md"]
  /\ exists before after,
       INDEX_TEMPLATE = before ++ lit "ENTRIES" ++ after
       /\ buildIndex d = before ++ join [LF] (indexParts d) ++ after.
Proof.
  intro d.
  assert (indexFiles d = [lit "notes.md"; lit "2024-01-15-plan.md"]) as E
    by (vm_compute; reflexivity).
  split; [exact E|].
  apply (@buildIndex_page d).
  - rewrite E. discriminate.
  - rewrite E. intros f [<-|[<-|[]]]; vm_compute; reflexivity.
Defined.

End IndexFacts.

Module HandlerFacts.
Import TextFacts.

Lemma untilSlash_noSlash s : noSlash (untilSlash s).
Proof.
  unfold noSlash. induction s as [|c s IH]; simpl; [reflexivity|].
  destruct (isSlash c) eqn:E; [reflexivity|]. simpl. now rewrite E.
Qed.

Lemma basename_noSlash p : noSlash (basename p).
Proof. unfold basename. apply noSlash_rev, untilSlash_noSlash. Qed.

Lemma noSlash_app a b : noSlash (a ++ b) <-> noSlash a /\ noSlash b.
Proof. unfold noSlash. rewrite forallb_app, andb_true_iff. reflexivity. Qed.

Lemma untilSlash_app (a r : jsstring) : noSlash a -> untilSlash (a ++ 47%N :: r) = a.
Proof.
  unfold noSlash. induction a as [|c a IH]; simpl; [reflexivity|].
  rewrite andb_true_iff, negb_true_iff. intros (-> & H). now rewrite IH.
Qed.

(** The base name of a path that ends in [.md] ends in [.md]. *)
Lemma basename_md p : endsWith (lit ".md") p = true -> endsWith (lit ".md") (basename p) = true.
Proof.
  intro H. destruct (endsWith_app _ _ H) as (a & ->).
  unfold basename. rewrite rev_app_distr.
  change (rev (lit ".md") ++ rev a) with (100%N :: 109%N :: 46%N :: rev a).
  change (dropSlashes (100%N :: 109%N :: 46%N :: rev a)) with (100%N :: 109%N :: 46%N :: rev a).
  change (untilSlash (100%N :: 109%N :: 46%N :: rev a))
    with (100%N :: 109%N :: 46%N :: untilSlash (rev a)).
  change (100%N :: 109%N :: 46%N :: untilSlash (rev a))
    with (rev (lit ".md") ++ untilSlash (rev a)).
  rewrite rev_app_distr, rev_involutive. apply endsWith_suffix.
Qed.

(** Directory components before the last one do not count. *)
Lemma basename_last (q p : jsstring) :
  noSlash p -> p <> [] -> basename (q ++ 47%N :: p) = p.
Proof.
  intros Hp Hne. unfold basename.
  rewrite rev_app_distr. simpl rev. rewrite <- app_assoc. simpl app.
  pose proof (noSlash_rev Hp) as Hr.
  assert (rev p <> []) as Hrne.
  { intro E. apply Hne. rewrite <- (rev_involutive p), E. reflexivity. }
  destruct (rev p) as [|c r] eqn:E; [congruence|].
  assert (isSlash c = false) as Hc.
  { unfold noSlash in Hr. simpl in Hr. apply andb_true_iff in Hr.
    destruct Hr as (Hc & _). now apply negb_true_iff in Hc. }
  rewrite ?E. change (dropSlashes ((c :: r) ++ 47%N :: rev q))
    with (if isSlash c then dropSlashes (r ++ 47%N :: rev q) else (c :: r) ++ 47%N :: rev q).
  rewrite Hc, untilSlash_app by assumption. rewrite <- E. apply rev_involutive.
Qed.

Lemma endsWith_md_last (q p : jsstring) :
  noSlash p -> p <> [] ->
  endsWith (lit ".md") (q ++ 47%N :: p) = endsWith (lit ".md") p.
Proof.
  intros Hp Hne.
  destruct (endsWith (lit ".md") p) eqn:E.
  - destruct (endsWith_app _ _ E) as (a & ->).
    change (q ++ 47%N :: a ++ lit ".md") with (q ++ (47%N :: a) ++ lit ".md").
    rewrite app_assoc. apply endsWith_suffix.
  - destruct (endsWith (lit ".md") (q ++ 47%N :: p)) eqn:E'; [|reflexivity].
    destruct (endsWith_app _ _ E') as (a & Ha).
    apply (f_equal (@rev jschar)) in Ha. rewrite !rev_app_distr in Ha.
    simpl rev in Ha. rewrite <- app_assoc in Ha. simpl app in Ha.
    pose proof (noSlash_rev Hp) as Hr.
    assert (rev p <> []) as Hrne.
    { intro X. apply Hne. rewrite <- (rev_involutive p), X. reflexivity. }
    destruct (rev p) as [|x [|y [|z r]]] eqn:R; try congruence;
      simpl in Ha; inversion Ha; subst.
    rewrite <- (rev_involutive p), R in E. simpl rev in E.
    rewrite <- !app_assoc in E. change ([46%N] ++ [109%N] ++ [100%N]) with (lit ".md") in E.
    now rewrite endsWith_suffix in E.
Qed.

Lemma dispatch_last d (q p : jsstring) :
  noSlash p -> p <> [] -> dispatch d (q ++ 47%N :: p) = dispatch d p.
Proof.
  intros Hp Hne. unfold dispatch.
  rewrite (endsWith_md_last q Hp Hne), (basename_last q Hp Hne), (basename_plain Hp).
  destruct p; [congruence|]. destruct q; reflexivity.
Qed.

Lemma dropSlashes_cut (q p : jsstring) :
  noSlash p -> p <> [] ->
  dropSlashes (q ++ 47%N :: p) = p \/ exists q', dropSlashes (q ++ 47%N :: p) = q' ++ 47%N :: p.
Proof.
  intros Hp Hne. induction q as [|c q IH].
  - left. simpl. now apply dropSlashes_plain.
  - simpl. destruct (isSlash c); [exact IH|]. right. now exists (c :: q).
Qed.

Lemma noPercent_app a b : noPercent (a ++ b) <-> noPercent a /\ noPercent b.
Proof. unfold noPercent. rewrite forallb_app, andb_true_iff. reflexivity. Qed.

Lemma handler_plain d c url :
  noPercent (c :: url) ->
  handler d (c :: url) = Normal (dispatch d (stripLeadingSlashes (c :: url))).
Proof. intro H. apply handler_decoded. exact (decodeURIComponent_plain H). Qed.

End HandlerFacts.

Import TextFacts IndexFacts HandlerFacts.

(** X10.  Every response of the handler allows any origin, announces the
    length of its body in octets, and has status 200 or 404; a 404 is the
    plain text [Not found]. *)
Theorem handler_response_invariants (d : logdir) (url : jsstring) (r : response) :
  handler d url = Normal r ->
  allowOrigin r = lit "*"
  /\ contentLength r = length (body r)
  /\ (statusCode r = 200%N
      \/ (statusCode r = 404%N /\ body r = lit "Not found"
          /\ contentType r = lit "text/plain")).
Proof.
  unfold handler. destruct (decodeURIComponent _) as [decoded|e]; [|discriminate].
  cbn [bind]. intro H. inversion H; subst r. clear H.
  unfold dispatch.
  destruct (negb _); [repeat split; now left|].
  destruct (endsWith _ _).
  - destruct (readFileSync _ _); repeat split; (now left) || (right; repeat split).
  - destruct (readFileSync _ _); repeat split; (now left) || (right; repeat split).
Qed.

Lemma handler_response_invariants_witness :
  handler None (lit "/missing.md") = Normal notFound
  /\ allowOrigin notFound = lit "*".
Proof.
  split; [reflexivity|].
  exact (proj1 (@handler_response_invariants None (lit "/missing.md") notFound eq_refl)).
Defined.

(** X11.  What is served with status 200 is the index page or a regular
    file of the log directory itself: the name that is read holds no
    slash and ends in [.md], whatever the request path. *)
Theorem served_files_confined (d : logdir) (url : jsstring) (r : response) :
  handler d url = Normal r ->
  statusCode r = 200%N ->
  r = respond 200 (buildIndex d) (lit "text/html")
  \/ exists name content,
       readFileSync d name = Normal content
       /\ noSlash name /\ endsWith (lit ".md") name = true
       /\ (r = respond 200 content (lit "text/plain; charset=utf-8")
           \/ exists title,
                r = respond 200
                      (replace (lit "CONTENT") (escapeHtml content)
                         (replace (lit "TITLE") (escapeHtml title) HTML_TEMPLATE))
                      (lit "text/html")).
Proof.
  unfold handler. destruct (decodeURIComponent _) as [decoded|e]; [|discriminate].
  cbn [bind]. intro H. inversion H; subst r. clear H.
  unfold dispatch.
  destruct (negb _); [now left|].
  destruct (endsWith (lit ".md") (stripLeadingSlashes decoded)) eqn:E.
  - destruct (readFileSync _ _) as [content|] eqn:R; [|discriminate].
    intros _. right. exists (basename (stripLeadingSlashes decoded)), content.
    split; [exact R|]. split; [apply basename_noSlash|].
    split; [now apply basename_md|now left].
  - destruct (readFileSync _ _) as [content|] eqn:R; [|discriminate].
    intros _. right. exists (basename (stripLeadingSlashes decoded) ++ lit ".md"), content.
    split; [exact R|]. split; [apply noSlash_app; split; [apply basename_noSlash|reflexivity]|].
    split; [apply endsWith_suffix|]. right. now eexists.
Qed.

Lemma served_files_confined_witness :
  let d := Some [(lit "notes.md", File (lit "text"))] in
  handler d (lit "/../../etc/notes.md")
  = Normal (respond 200 (lit "text") (lit "text/plain; charset=utf-8"))
  /\ exists name content,
       readFileSync d name = Normal content /\ noSlash name.
Proof.
  intro d.
  assert (handler d (lit "/../../etc/notes.md")
          = Normal (respond 200 (lit "text") (lit "text/plain; charset=utf-8"))) as H
    by (vm_compute; reflexivity).
  split; [exact H|].
  destruct (@served_files_confined d _ _ H eq_refl) as [E|(name & content & R & S & _)].
  - exfalso. vm_compute in E. discriminate.
  - exists name, content. now split.
Defined.

(** X12.  A request target of slashes only, and the empty target, are
    answered with the index page. *)
Theorem slashes_serve_index (d : logdir) (n : nat) :
  handler d (repeat 47%N n) = Normal (respond 200 (buildIndex d) (lit "text/html"))
  /\ exists r,
       handler d (repeat 47%N n) = Normal r
       /\ statusCode r = 200%N
       /\ contentType r = lit "text/html"
       /\ body r = utf8Encode (buildIndex d)
       /\ contentLength r = length (utf8Encode (buildIndex d)).
Proof.
  assert (handler d (repeat 47%N n)
          = Normal (respond 200 (buildIndex d) (lit "text/html"))) as H;
    [|split; [exact H|eexists; split; [exact H|repeat split]]].
  assert (forall k, stripLeadingSlashes (repeat 47%N k) = []) as Hs
    by (induction k; [reflexivity|exact IHk]).
  assert (forall k, noPercent (repeat 47%N k)) as Hp
    by (induction k; [reflexivity|exact IHk]).
  destruct n as [|n]; [reflexivity|].
  change (repeat 47%N (S n)) with (47%N :: repeat 47%N n).
  rewrite handler_plain by exact (Hp (S n)).
  change (47%N :: repeat 47%N n) with (repeat 47%N (S n)). now rewrite Hs.
Qed.

(** X13.  The directory components of a request path are ignored: a
    request for [/q/p] is answered as the request for [/p], for every
    [q], when [p] holds no slash. *)
Theorem directory_components_ignored (d : logdir) (q p : jsstring) :
  noPercent q -> noPercent p -> noSlash p -> p <> [] ->
  handler d (lit "/" ++ q ++ lit "/" ++ p) = handler d (lit "/" ++ p).
Proof.
  intros Hq Hp Hs Hne.
  change (lit "/" ++ q ++ lit "/" ++ p) with (47%N :: q ++ 47%N :: p).
  change (lit "/" ++ p) with (47%N :: p).
  rewrite !handler_plain.
  - f_equal.
    change (stripLeadingSlashes (47%N :: q ++ 47%N :: p)) with (dropSlashes (q ++ 47%N :: p)).
    change (stripLeadingSlashes (47%N :: p)) with (dropSlashes p).
    rewrite (dropSlashes_plain Hs).
    destruct (dropSlashes_cut q Hs Hne) as [-> | (q' & ->)]; [reflexivity|].
    now apply dispatch_last.
  - change (47%N :: p) with ([47%N] ++ p). apply noPercent_app. now split.
  - change (47%N :: q ++ 47%N :: p) with ([47%N] ++ q ++ [47%N] ++ p).
    rewrite !noPercent_app. repeat split; assumption || reflexivity.
Qed.

Lemma directory_components_ignored_witness :
  handler (Some [(lit "notes.md", File (lit "text"))]) (lit "/../../etc/notes.md")
  = handler (Some [(lit "notes.md", File (lit "text"))]) (lit "/notes.md").
Proof.
  apply (@directory_components_ignored _ (lit "../../etc") (lit "notes.md"));
    reflexivity || discriminate.
Defined.

Module PageFacts.
Import TextFacts.

Lemma startsWith_boundary pat c : lacks c pat ->
  forall (a rest : jsstring), startsWith pat (a ++ c :: rest) = true -> startsWith pat a = true.
Proof.
  unfold lacks. induction pat as [|x pat IH]; intros L a rest H; [reflexivity|].
  simpl in L. apply andb_true_iff in L. destruct L as (Lx & L).
  destruct a as [|y a]; simpl in *.
  - apply andb_true_iff in H. destruct H as (E & _). rewrite E in Lx. discriminate.
  - apply andb_true_iff in H. destruct H as (E & H). rewrite E. simpl. now apply (IH L a rest).
Qed.

(** The first occurrence of a pattern in a text of three pieces, when the
    pattern is not in the first piece and cannot reach over the
    character between the pieces. *)
Lemma splitFirst_boundary pat c (rest : jsstring) :
  pat <> [] -> lacks c pat ->
  forall a : jsstring, includes pat a = false ->
  splitFirst pat (a ++ c :: rest)
  = match splitFirst pat rest with
    | Some (before, after) => Some (a ++ c :: before, after)
    | None => None
    end.
Proof.
  intros Hne L. unfold includes.
  assert (startsWith pat (c :: rest) = false) as H0.
  { destruct pat as [|x pat]; [congruence|]. unfold lacks in L. simpl in L |- *.
    apply andb_true_iff in L. destruct L as (Lx & _). apply negb_true_iff in Lx.
    now rewrite Lx. }
  induction a as [|y a IH]; intro H.
  - simpl app. cbn [splitFirst]. rewrite H0. now destruct (splitFirst pat rest) as [[? ?]|].
  - cbn [splitFirst] in H. simpl app. cbn [splitFirst].
    destruct (startsWith pat (y :: a)) eqn:E; [discriminate|].
    destruct (startsWith pat (y :: a ++ c :: rest)) eqn:E'.
    + apply (startsWith_boundary L (y :: a) rest) in E'. congruence.
    + destruct (splitFirst pat a) as [[? ?]|] eqn:Sa; [discriminate|].
      rewrite (IH eq_refl). now destruct (splitFirst pat rest) as [[? ?]|].
Qed.

Lemma escapeHtml_noDollar s : noDollar s -> noDollar (escapeHtml s).
Proof.
  unfold escapeHtml, replaceAllChar, noDollar. rewrite !forallb_forall.
  intros H x Hx.
  repeat (apply in_flat_map in Hx; destruct Hx as (? & Hx & Hx');
          match goal with
          | Hx' : In _ (if ?b then _ else _) |- _ => destruct b
          end;
          [simpl in Hx'; repeat (destruct Hx' as [<-|Hx']; [reflexivity|]); destruct Hx'
          |destruct Hx' as [<-|[]]]).
  now apply H.
Qed.

(** The pieces of the page template around [TITLE] and [CONTENT]: the
    first ends with [>], the second begins with [<]. *)
Lemma html_template_pieces :
  exists h1 r h2 h3 : jsstring,
    splitFirst (lit "TITLE") HTML_TEMPLATE = Some (h1 ++ [62%N], 60%N :: r)
    /\ includes (lit "CONTENT") h1 = false
    /\ splitFirst (lit "CONTENT") r = Some (h2, h3)
    /\ HTML_TEMPLATE
       = (h1 ++ [62%N]) ++ lit "TITLE" ++ (60%N :: h2) ++ lit "CONTENT" ++ h3.
Proof.
  pose (tr := match splitFirst (lit "TITLE") HTML_TEMPLATE with
              | Some x => x
              | None => ([], [])
              end).
  pose (ba := match splitFirst (lit "CONTENT") (tl (snd tr)) with
              | Some x => x
              | None => ([], [])
              end).
  exists (removelast (fst tr)), (tl (snd tr)), (fst ba), (snd ba).
  vm_compute. repeat split; reflexivity.
Qed.

(** The page of the rendered route. *)
Lemma rendered_page_pieces (title content : jsstring) :
  noDollar title -> noDollar content ->
  includes (lit "CONTENT") (escapeHtml title) = false ->
  exists h1 h2 h3 : jsstring,
    HTML_TEMPLATE = h1 ++ lit "TITLE" ++ h2 ++ lit "CONTENT" ++ h3
    /\ replace (lit "CONTENT") (escapeHtml content)
         (replace (lit "TITLE") (escapeHtml title) HTML_TEMPLATE)
       = h1 ++ escapeHtml title ++ h2 ++ escapeHtml content ++ h3.
Proof.
  intros Ht Hc Hi.
  destruct html_template_pieces as (h1 & r & h2 & h3 & S1 & I1 & S2 & T).
  exists (h1 ++ [62%N]), (60%N :: h2), h3. split; [exact T|].
  unfold replace at 2. rewrite S1.
  rewrite getSubstitution_noDollar by now apply escapeHtml_noDollar.
  unfold replace.
  replace ((h1 ++ [62%N]) ++ escapeHtml title ++ 60%N :: r)
    with (h1 ++ 62%N :: (escapeHtml title ++ 60%N :: r))
    by (rewrite <- app_assoc; reflexivity).
  rewrite (@splitFirst_boundary (lit "CONTENT") 62%N _) by (assumption || reflexivity || discriminate).
  rewrite (@splitFirst_boundary (lit "CONTENT") 60%N _) by (assumption || reflexivity || discriminate).
  rewrite S2.
  rewrite getSubstitution_noDollar by now apply escapeHtml_noDollar.
  repeat (rewrite <- app_assoc || rewrite <- app_comm_cons). reflexivity.
Qed.

End PageFacts.

Import PageFacts.

(** X14.  The page of the rendered route is the template with the escaped
    base name in the place of [TITLE] and the escaped content of the file
    in the place of [CONTENT], when neither holds a dollar sign and the
    escaped base name does not hold the word [CONTENT]. *)
Theorem rendered_page (d : logdir) (p content : jsstring) :
  p <> [] -> endsWith (lit ".md") p = false ->
  readFileSync d (basename p ++ lit ".md") = Normal content ->
  noDollar (basename p) -> noDollar content ->
  includes (lit "CONTENT") (escapeHtml (basename p)) = false ->
  exists h1 h2 h3 : jsstring,
    HTML_TEMPLATE = h1 ++ lit "TITLE" ++ h2 ++ lit "CONTENT" ++ h3
    /\ dispatch d p
       = respond 200 (h1 ++ escapeHtml (basename p) ++ h2 ++ escapeHtml content ++ h3)
                 (lit "text/html")
    /\ statusCode (dispatch d p) = 200%N
    /\ contentType (dispatch d p) = lit "text/html"
    /\ body (dispatch d p)
       = utf8Encode (h1 ++ escapeHtml (basename p) ++ h2 ++ escapeHtml content ++ h3).
Proof.
  intros Hne He Hr Ht Hc Hi.
  destruct (rendered_page_pieces Ht Hc Hi) as (h1 & h2 & h3 & T & E).
  exists h1, h2, h3. split; [exact T|].
  assert (dispatch d p
          = respond 200 (h1 ++ escapeHtml (basename p) ++ h2 ++ escapeHtml content ++ h3)
                    (lit "text/html")) as H.
  { unfold dispatch. rewrite He, Hr. cbv zeta. rewrite E.
    destruct p; [congruence|reflexivity]. }
  rewrite H. repeat split.
Qed.

Lemma rendered_page_witness :
  let d := Some [(lit "notes.md", File (lit "a <b> & c"))] in
  exists h1 h2 h3 : jsstring,
    HTML_TEMPLATE = h1 ++ lit "TITLE" ++ h2 ++ lit "CONTENT" ++ h3
    /\ dispatch d (lit "notes")
       = respond 200 (h1 ++ lit "notes" ++ h2 ++ lit "a &lt;b&gt; &amp; c" ++ h3)
                 (lit "text/html")
    /\ statusCode (dispatch d (lit "notes")) = 200%N
    /\ contentType (dispatch d (lit "notes")) = lit "text/html"
    /\ body (dispatch d (lit "notes"))
       = utf8Encode (h1 ++ lit "notes" ++ h2 ++ lit "a &lt;b&gt; &amp; c" ++ h3).
Proof.
  intro d.
  apply (@rendered_page d (lit "notes") (lit "a <b> & c"));
    reflexivity || discriminate.
Defined.



(** *** [parseArgs] *)

Module ArgsFacts.
Section Facts.
Variable parseInt10 : jsstring -> jsnumber.

Lemma parseArgsFrom_kept a : forall n argv, length argv <= n ->
  let r := parseArgsFrom parseInt10 a argv in
  (host a <> [] -> host r <> [])
  /\ (dir a <> [] -> dir r <> [])
  /\ (host r = host a \/ In (host r) argv)
  /\ (dir r = dir a \/ In (dir r) argv)
  /\ (port r = port a \/ exists v, In v argv /\ port r = parseInt10 v).
Proof.
  intros n. revert a. induction n as [|n IH]; intros a argv L.
  - destruct argv; [|simpl in L; lia]. simpl. tauto.
  - destruct argv as [|flag [|value rest]]; [simpl; tauto|simpl; tauto|].
    simpl in L. cbn [parseArgsFrom].
    assert (truthy (JStr value) = true -> value <> []) as Hv
      by (destruct value; [discriminate|discriminate]).
    destruct (str_eqb flag (lit "--port") && truthy (JStr value)) eqn:E1;
      [|destruct (str_eqb flag (lit "--host") && truthy (JStr value)) eqn:E2;
        [|destruct (str_eqb flag (lit "--dir") && truthy (JStr value)) eqn:E3]].
    + destruct (IH (Args (parseInt10 value) (host a) (dir a)) rest ltac:(lia))
        as (H1 & H2 & H3 & H4 & H5). cbn [host dir port] in *.
      repeat split; auto.
      * destruct H3; [now left|right; simpl; auto].
      * destruct H4; [now left|right; simpl; auto].
      * right. destruct H5 as [E|(v & Hv' & E)]; [exists value|exists v]; simpl; auto.
    + apply andb_true_iff in E2. destruct E2 as (_ & T).
      destruct (IH (Args (port a) value (dir a)) rest ltac:(lia))
        as (H1 & H2 & H3 & H4 & H5). cbn [host dir port] in *.
      repeat split; auto.
      * right. destruct H3 as [->|]; simpl; auto.
      * destruct H4; [now left|right; simpl; auto].
      * destruct H5 as [E|(v & Hv' & E)]; [now left|right; exists v; simpl; auto].
    + apply andb_true_iff in E3. destruct E3 as (_ & T).
      destruct (IH (Args (port a) (host a) value) rest ltac:(lia))
        as (H1 & H2 & H3 & H4 & H5). cbn [host dir port] in *.
      repeat split; auto.
      * destruct H3; [now left|right; simpl; auto].
      * right. destruct H4 as [->|]; simpl; auto.
      * destruct H5 as [E|(v & Hv' & E)]; [now left|right; exists v; simpl; auto].
    + destruct (IH a (value :: rest) ltac:(simpl; lia)) as (H1 & H2 & H3 & H4 & H5).
      repeat split; auto.
      * destruct H3; [now left|right; now right].
      * destruct H4; [now left|right; now right].
      * destruct H5 as [E|(v & Hv' & E)]; [now left|right; exists v; split; [now right|auto]].
Qed.

Lemma parseArgsFrom_options options : forall a,
  Forall validOption options ->
  exists a', forall rest,
    parseArgsFrom parseInt10 a (flat_map option2 options ++ rest)
    = parseArgsFrom parseInt10 a' rest.
Proof.
  induction options as [|[flag value] os IH]; intros a H.
  - now exists a.
  - inversion H as [|? ? (Hf & Hv) Hos]; subst. cbn [fst snd] in *.
    assert (truthy (JStr value) = true) as T by (destruct value; [congruence|reflexivity]).
    unfold isFlag in Hf.
    assert (forall rest,
              parseArgsFrom parseInt10 a (flat_map option2 ((flag, value) :: os) ++ rest)
              = parseArgsFrom parseInt10
                  (if str_eqb flag (lit "--port") then Args (parseInt10 value) (host a) (dir a)
                   else if str_eqb flag (lit "--host") then Args (port a) value (dir a)
                   else Args (port a) (host a) value)
                  (flat_map option2 os ++ rest)) as Step.
    { intro rest.
      change (flat_map option2 ((flag, value) :: os) ++ rest)
        with (flag :: value :: (flat_map option2 os ++ rest)).
      cbn [parseArgsFrom]. rewrite T, !andb_true_r.
      destruct (str_eqb flag (lit "--port")); [reflexivity|].
      destruct (str_eqb flag (lit "--host")); [reflexivity|].
      destruct (str_eqb flag (lit "--dir")); [reflexivity|discriminate]. }
    destruct (IH (if str_eqb flag (lit "--port") then Args (parseInt10 value) (host a) (dir a)
                  else if str_eqb flag (lit "--host") then Args (port a) value (dir a)
                  else Args (port a) (host a) value) Hos) as (a' & Ha').
    exists a'. intro rest. now rewrite Step, Ha'.
Qed.

Lemma parseArgsFrom_no_flag a : forall argv,
  (forall x, In x argv -> isFlag x = false) -> parseArgsFrom parseInt10 a argv = a.
Proof.
  induction argv as [|flag rest IH]; intro H; [reflexivity|].
  destruct rest as [|value rest']; [reflexivity|].
  assert (isFlag flag = false) as F by (apply H; now left).
  unfold isFlag in F. apply orb_false_iff in F. destruct F as (F & F3).
  apply orb_false_iff in F. destruct F as (F1 & F2).
  cbn [parseArgsFrom]. rewrite F1, F2, F3. cbn [andb].
  apply IH. intros x Hx. apply H. now right.
Qed.

(** X16.  Whatever the arguments, the host and the directory of the
    result are not empty, and every field is its default or comes from an
    argument after the first two: the port is [parseInt] of one. *)
Theorem parseArgs_fields (argv : list jsstring) :
  let r := parseArgs parseInt10 argv in
  host r <> [] /\ dir r <> []
  /\ (host r = DEFAULT_HOST \/ In (host r) (skipn 2 argv))
  /\ (dir r = DEFAULT_DIR \/ In (dir r) (skipn 2 argv))
  /\ (port r = DEFAULT_PORT \/ exists v, In v (skipn 2 argv) /\ port r = parseInt10 v).
Proof.
  unfold parseArgs.
  destruct (@parseArgsFrom_kept (Args DEFAULT_PORT DEFAULT_HOST DEFAULT_DIR)
              (length (skipn 2 argv)) (skipn 2 argv) (Nat.le_refl _))
    as (H1 & H2 & H3 & H4 & H5).
  cbn zeta. cbn [host dir port] in *.
  repeat split; auto; [apply H1|apply H2]; discriminate.
Qed.

(** X17.  Without any of the three flags after the first two arguments,
    and so for an argument list of two or fewer, the result is the
    defaults: port 3000, host 127.0.0.1, the directory [.claude/logs]. *)
Theorem parseArgs_defaults (argv : list jsstring) :
  (forall x, In x (skipn 2 argv) -> isFlag x = false) ->
  parseArgs parseInt10 argv
  = Args (Num 3000) (lit "127.0.0.1") (lit ".claude/logs").
Proof. intro H. unfold parseArgs. now apply parseArgsFrom_no_flag. Qed.

(** X18.  After any flags with values, the last flag decides: a final
    [--host], [--dir] or [--port] with a value that is not empty sets its
    field to that value, and a single last argument, flag or not, changes
    nothing. *)
Theorem parseArgs_last_wins (node script : jsstring)
    (options : list (jsstring * jsstring)) (v : jsstring) :
  Forall validOption options -> v <> [] ->
  let given := node :: script :: flat_map option2 options in
  host (parseArgs parseInt10 (given ++ [lit "--host"; v])) = v
  /\ dir (parseArgs parseInt10 (given ++ [lit "--dir"; v])) = v
  /\ port (parseArgs parseInt10 (given ++ [lit "--port"; v])) = parseInt10 v
  /\ forall x, parseArgs parseInt10 (given ++ [x]) = parseArgs parseInt10 given.
Proof.
  intros Ho Hv given. unfold parseArgs, given. cbn [app skipn].
  destruct (parseArgsFrom_options (Args DEFAULT_PORT DEFAULT_HOST DEFAULT_DIR) Ho)
    as (a' & Ha').
  assert (truthy (JStr v) = true) as T by (destruct v; [congruence|reflexivity]).
  rewrite !Ha'. cbn [parseArgsFrom]. rewrite T.
  change (str_eqb (lit "--host") (lit "--port")) with false.
  change (str_eqb (lit "--host") (lit "--host")) with true.
  change (str_eqb (lit "--dir") (lit "--port")) with false.
  change (str_eqb (lit "--dir") (lit "--host")) with false.
  change (str_eqb (lit "--dir") (lit "--dir")) with true.
  change (str_eqb (lit "--port") (lit "--port")) with true.
  cbn [andb host dir port]. repeat split.
  intro x. rewrite <- (app_nil_r (flat_map option2 options)) at 2.
  now rewrite !Ha'.
Qed.

End Facts.
End ArgsFacts.

Lemma parseArgs_fields_witness :
  host (parseArgs (fun _ => NaN) [lit "node"; lit "serve.js"; lit "--host"; lit "0.0.0.0"])
  <> [].
Proof.
  exact (proj1 (ArgsFacts.parseArgs_fields (fun _ => NaN)
                  [lit "node"; lit "serve.js"; lit "--host"; lit "0.0.0.0"])).
Defined.

Lemma parseArgs_defaults_witness :
  parseArgs (fun _ => NaN) [lit "node"; lit "serve.js"; lit "extra"]
  = Args (Num 3000) (lit "127.0.0.1") (lit ".claude/logs").
Proof.
  apply (ArgsFacts.parseArgs_defaults (fun _ => NaN)).
  intros x [<-|[]]. reflexivity.
Defined.

Lemma parseArgs_last_wins_witness :
  host (parseArgs (fun _ => NaN)
          ([lit "node"; lit "serve.js"; lit "--host"; lit "a"; lit "--dir"; lit "logs"]
           ++ [lit "--host"; lit "b"])) = lit "b".
Proof.
  refine (proj1 (@ArgsFacts.parseArgs_last_wins (fun _ => NaN) (lit "node") (lit "serve.js")
                   [(lit "--host", lit "a"); (lit "--dir", lit "logs")] (lit "b") _ _)).
  - repeat constructor; discriminate.
  - discriminate.
Defined.

(** *** The body of a response *)

Lemma utf8Encode_ascii s : isAscii s -> utf8Encode s = s.
Proof.
  unfold isAscii. induction s as [|c s IH]; intro H; [reflexivity|].
  simpl in H. apply andb_true_iff in H. destruct H as (Hc & H).
  assert (c < 128)%N as L by now apply N.ltb_lt.
  cbn [utf8Encode].
  assert (isHighSurrogate c = false) as E1.
  { unfold isHighSurrogate. apply andb_false_iff. left. apply N.leb_gt. lia. }
  assert (isLowSurrogate c = false) as E2.
  { unfold isLowSurrogate. apply andb_false_iff. left. apply N.leb_gt. lia. }
  rewrite E1, E2. unfold utf8Octets. rewrite Hc. simpl. now rewrite IH.
Qed.

(** X19.  For an ASCII text the body of the response is the text, one
    octet for each character, and the announced length is the length of
    the text. *)
Theorem respond_ascii (code : N) (text ctype : jsstring) :
  isAscii text ->
  body (respond code text ctype) = text
  /\ contentLength (respond code text ctype) = length text.
Proof.
  intro H. unfold respond. cbn [body contentLength].
  now rewrite (utf8Encode_ascii H).
Qed.

Lemma respond_ascii_witness :
  body (respond 200 (lit "# Hello <world>") (lit "text/plain; charset=utf-8"))
  = lit "# Hello <world>".
Proof.
  exact (proj1 (@respond_ascii 200 (lit "# Hello <world>") (lit "text/plain; charset=utf-8")
                  eq_refl)).
Defined.

Lemma handler_plain_target_witness :
  noPercent (lit "/notes.md") /\ exists r, handler None (lit "/notes.md") = Normal r.
Proof.
  split; [reflexivity|]. exact (@handler_plain_target None (lit "/notes.md") eq_refl).
Defined.

Lemma strip_plain_extension_witness :
  raw (parseLogName (lit "notes.md")) = JStr (lit "notes").
Proof.
  exact (proj1 (@strip_plain_extension (lit "notes") eq_refl)).
Defined.

(** ** Replacement patterns in the index page *)

Module PatternTextFacts.

Lemma getSubstitution_free m b a f : forall r,
  patternFree f = true -> headPlain r ->
  getSubstitution m b a (f ++ r) = f ++ getSubstitution m b a r.
Proof.
  induction f as [|c f IH]; intros r H Hr; [reflexivity|].
  cbn [patternFree] in H. apply andb_true_iff in H. destruct H as (Hc & Hf).
  destruct (N.eqb c 36) eqn:E.
  - apply N.eqb_eq in E. subst c.
    assert (exists d t, f ++ r = d :: t /\ special d = false \/ f ++ r = []) as X.
    { destruct f as [|d f'].
      - destruct r as [|d t]; [exists 0%N, []; now right|].
        exists d, t. left. split; [reflexivity|exact Hr].
      - exists d, (f' ++ r). left. split; [reflexivity|]. now apply negb_true_iff. }
    destruct X as (d & t & [(Eq & Sd)|Eq]).
    + change ((36%N :: f) ++ r) with (36%N :: (f ++ r)).
      rewrite Eq, getSubstitution_dollar.
      unfold special in Sd. repeat (apply orb_false_iff in Sd; destruct Sd as (Sd & ?)).
      rewrite Sd, H, H0, H1.
      transitivity (36%N :: getSubstitution m b a (f ++ r));
        [f_equal; f_equal; symmetry; exact Eq|].
      rewrite (IH r Hf Hr). reflexivity.
    + apply app_eq_nil in Eq. destruct Eq as (-> & ->). reflexivity.
  - change ((c :: f) ++ r) with (c :: (f ++ r)). cbn [getSubstitution]. rewrite E.
    rewrite IH by assumption. reflexivity.
Qed.

Lemma getSubstitution_patternFree m b a r :
  patternFree r = true -> getSubstitution m b a r = r.
Proof.
  intro H. rewrite <- (app_nil_r r) at 1.
  rewrite getSubstitution_free by (assumption || exact I). simpl. apply app_nil_r.
Qed.



Lemma patternFree_app_head a : forall b,
  patternFree a = true -> patternFree b = true -> headPlain b ->
  patternFree (a ++ b) = true.
Proof.
  induction a as [|c a IH]; intros b Ha Hb Hh; [exact Hb|].
  change ((c :: a) ++ b) with (c :: (a ++ b)).
  cbn [patternFree] in Ha |- *. apply andb_true_iff in Ha. destruct Ha as (Hc & Ha).
  rewrite (IH b Ha Hb Hh), andb_true_r.
  destruct (N.eqb c 36); [|reflexivity].
  destruct a as [|d a']; [|exact Hc].
  destruct b as [|d b']; [reflexivity|]. simpl in Hh |- *. now rewrite Hh.
Qed.

Lemma patternFree_app_plain a : forall b,
  noDollar a -> patternFree b = true -> patternFree (a ++ b) = true.
Proof.
  unfold noDollar. induction a as [|c a IH]; intros b Ha Hb; [exact Hb|].
  simpl in Ha. apply andb_true_iff in Ha. destruct Ha as (Hc & Ha).
  apply negb_true_iff in Hc.
  change ((c :: a) ++ b) with (c :: (a ++ b)). cbn [patternFree].
  rewrite Hc. simpl. now apply IH.
Qed.

Lemma patternFree_join es :
  (forall e, In e es -> patternFree e = true) -> patternFree (join [LF] es) = true.
Proof.
  induction es as [|e es IH]; intro H; [reflexivity|].
  destruct es as [|e' es]; [apply H; now left|].
  change (join [LF] (e :: e' :: es)) with (e ++ [LF] ++ join [LF] (e' :: es)).
  apply patternFree_app_head; [apply H; now left| |reflexivity].
  apply patternFree_app_plain; [reflexivity|].
  apply IH. intros x Hx. apply H. now right.
Qed.




End PatternTextFacts.

Module PageStructure.
Import PatternTextFacts.

(** The replacement text is expanded piece by piece: a character other
    than the dollar sign ends the piece before it. *)
Lemma getSubstitution_boundary m b a (c : jschar) (r : jsstring) : c <> 36%N ->
  forall n (pre : jsstring), length pre <= n ->
  getSubstitution m b a (pre ++ c :: r)
  = getSubstitution m b a (pre ++ [c]) ++ getSubstitution m b a r.
Proof.
  intro Hc. apply N.eqb_neq in Hc.
  assert (forall t, getSubstitution m b a (c :: t) = c :: getSubstitution m b a t) as Hone.
  { intro t. cbn [getSubstitution]. now rewrite Hc. }
  induction n as [|n IH]; intros pre L.
  - destruct pre; [|simpl in L; lia]. cbn [app getSubstitution]. rewrite ?Hc. reflexivity.
  - destruct pre as [|x pre]; [cbn [app getSubstitution]; rewrite ?Hc; reflexivity|].
    simpl in L.
    destruct (N.eqb x 36) eqn:Ex.
    + apply N.eqb_eq in Ex. subst x.
      destruct pre as [|d pre].
      * simpl app. rewrite !getSubstitution_dollar, Hc.
        destruct (N.eqb c 38); [cbn [getSubstitution]; now rewrite app_nil_r|].
        destruct (N.eqb c 96); [cbn [getSubstitution]; now rewrite app_nil_r|].
        destruct (N.eqb c 39); [cbn [getSubstitution]; now rewrite app_nil_r|].
        cbn [app getSubstitution]. rewrite ?Hc. reflexivity.
      * simpl in L.
        change ((36%N :: d :: pre) ++ c :: r) with (36%N :: d :: (pre ++ c :: r)).
        change ((36%N :: d :: pre) ++ [c]) with (36%N :: d :: (pre ++ [c])).
        rewrite !getSubstitution_dollar.
        pose proof (IH pre ltac:(lia)) as H1.
        destruct (N.eqb d 36); [now rewrite H1|].
        destruct (N.eqb d 38); [now rewrite H1, app_assoc|].
        destruct (N.eqb d 96); [now rewrite H1, app_assoc|].
        destruct (N.eqb d 39); [now rewrite H1, app_assoc|].
        rewrite <- app_comm_cons. f_equal.
        exact (IH (d :: pre) ltac:(simpl; lia)).
    + change ((x :: pre) ++ c :: r) with (x :: (pre ++ c :: r)).
      change ((x :: pre) ++ [c]) with (x :: (pre ++ [c])).
      cbn [getSubstitution]. rewrite Ex.
      now rewrite (IH pre ltac:(lia)).
Qed.

Lemma getSubstitution_after m b a (c : jschar) (e r : jsstring) : c <> 36%N ->
  getSubstitution m b a ((e ++ [c]) ++ r)
  = getSubstitution m b a (e ++ [c]) ++ getSubstitution m b a r.
Proof.
  intro Hc. rewrite <- app_assoc. simpl app.
  exact (@getSubstitution_boundary m b a c r Hc (length e) e (Nat.le_refl _)).
Qed.

(** The entries are expanded one by one. *)
Lemma getSubstitution_join m b a (es : list jsstring) :
  (forall e, In e es -> exists e', e = e' ++ [62%N]) ->
  getSubstitution m b a (join [LF] es) = join [LF] (map (getSubstitution m b a) es).
Proof.
  induction es as [|e es IH]; intro H; [reflexivity|].
  destruct es as [|e2 es]; [reflexivity|].
  change (join [LF] (e :: e2 :: es)) with (e ++ [LF] ++ join [LF] (e2 :: es)).
  change (map (getSubstitution m b a) (e :: e2 :: es))
    with (getSubstitution m b a e :: map (getSubstitution m b a) (e2 :: es)).
  change (join [LF] (getSubstitution m b a e :: map (getSubstitution m b a) (e2 :: es)))
    with (getSubstitution m b a e ++ [LF]
          ++ join [LF] (map (getSubstitution m b a) (e2 :: es))).
  destruct (H e (or_introl eq_refl)) as (e' & ->).
  rewrite getSubstitution_after by discriminate.
  change (getSubstitution m b a ([LF] ++ join [LF] (e2 :: es)))
    with ([LF] ++ getSubstitution m b a (join [LF] (e2 :: es))).
  rewrite IH by (intros x Hx; apply H; now right).
  reflexivity.
Qed.




Lemma ends_app (a b : jsstring) (c : jschar) :
  (exists b', b = b' ++ [c]) -> exists e', a ++ b = e' ++ [c].
Proof. intros (b' & ->). exists (a ++ b'). now rewrite app_assoc. Qed.

Lemma renderEntry_ends f : exists e', renderEntry f = e' ++ [62%N].
Proof.
  unfold renderEntry. cbv zeta. do 6 apply ends_app.
  exists (lit "</div"). reflexivity.
Qed.

(** The index page: the template with the empty-state paragraph, or with
    the entries of the listed files, each expanded on its own and joined
    by line feeds, in the place of [ENTRIES]. *)
Lemma buildIndex_expanded d :
  exists before after : jsstring,
    INDEX_TEMPLATE = before ++ lit "ENTRIES" ++ after
    /\ buildIndex d
       = before
         ++ match indexFiles d with
            | [] => EMPTY_STATE
            | _ :: _ =>
                join [LF]
                  (map (fun f => getSubstitution (lit "ENTRIES") before after (renderEntry f))
                       (indexFiles d))
            end
         ++ after.
Proof.
  destruct index_template_halves as (before & after & Hs & T).
  exists before, after. split; [exact T|].
  unfold buildIndex, replace. rewrite Hs.
  destruct (indexFiles d) as [|g l] eqn:E.
  - now rewrite getSubstitution_noDollar by reflexivity.
  - unfold indexParts. rewrite E, getSubstitution_join, map_map; [reflexivity|].
    intros e He. apply in_map_iff in He. destruct He as (f & <- & _).
    apply renderEntry_ends.
Qed.

End PageStructure.

Import PatternTextFacts PageStructure.

Module FieldFacts.

Lemma indexFiles_perm entries :
  Permutation (indexFiles (Some entries)) (filter listed (map fst entries)).
Proof. unfold indexFiles. rewrite <- Permutation_rev, sort_perm. reflexivity. Qed.






(** A hidden file takes no part in the listing. *)
Lemma filter_hidden name (entries : list (jsstring * node)) :
  listed name = false ->
  filter listed (map fst (filter (fun e => negb (str_eqb (fst e) name)) entries))
  = filter listed (map fst entries).
Proof.
  intro H. induction entries as [|e es IH]; [reflexivity|].
  cbn [filter map]. destruct (str_eqb (fst e) name) eqn:E.
  - apply str_eqb_eq in E. rewrite E, H. exact IH.
  - cbn [negb map filter]. now rewrite IH.
Qed.

Lemma respond_fields code text ctype :
  statusCode (respond code text ctype) = code
  /\ contentType (respond code text ctype) = ctype
  /\ allowOrigin (respond code text ctype) = lit "*"
  /\ body (respond code text ctype) = utf8Encode text
  /\ contentLength (respond code text ctype) = length (utf8Encode text).
Proof. repeat split. Qed.

End FieldFacts.

Import FieldFacts.

(** *** The order of the entries *)




(** *** File names and label fields in the index page *)



(** *** Hidden files *)

(** C9.  A file whose name begins with a dot and ends in [.md] is left
    out of the index and served all the same.  The page that
    [buildIndex] returns is the template with, in the place of
    [ENTRIES], the entries of the listed names only (or the empty-state
    paragraph), the hidden name not among them, and it is the page of
    the directory without the hidden file.  A request whose target
    decodes to a slash and the name is answered with status 200, the
    plain-text content type and the octets of the content of the file;
    a request for the name without its extension is answered with
    status 200 and the rendered page of that content. *)
Theorem hidden_file_excluded_and_served
    (entries : list (jsstring * node)) (name content url : jsstring) :
  startsWith (lit ".") name = true ->
  endsWith (lit ".md") name = true ->
  noSlash name ->
  readFileSync (Some entries) name = Normal content ->
  decodeURIComponent url = Normal (lit "/" ++ name) ->
  (exists (before after : jsstring) (files : list jsstring),
     INDEX_TEMPLATE = before ++ lit "ENTRIES" ++ after
     /\ Permutation files (filter listed (map fst entries))
     /\ ~ In name files
     /\ buildIndex (Some entries)
        = before
          ++ match files with
             | [] => EMPTY_STATE
             | _ :: _ =>
                 join [LF]
                   (map (fun f => getSubstitution (lit "ENTRIES") before after (renderEntry f))
                        files)
             end
          ++ after)
  /\ buildIndex (Some entries)
     = buildIndex (Some (filter (fun e => negb (str_eqb (fst e) name)) entries))
  /\ (exists r,
        handler (Some entries) url = Normal r
        /\ statusCode r = 200%N
        /\ contentType r = lit "text/plain; charset=utf-8"
        /\ body r = utf8Encode content
        /\ contentLength r = length (utf8Encode content))
  /\ forall stem url' : jsstring,
       name = stem ++ lit ".md" -> stem <> [] ->
       endsWith (lit ".md") stem = false ->
       decodeURIComponent url' = Normal (lit "/" ++ stem) ->
       exists r,
         handler (Some entries) url' = Normal r
         /\ statusCode r = 200%N
         /\ contentType r = lit "text/html"
         /\ body r
            = utf8Encode
                (replace (lit "CONTENT") (escapeHtml content)
                   (replace (lit "TITLE") (escapeHtml stem) HTML_TEMPLATE)).
Proof.
  intros Hdot Hmd Hslash Hfile Hurl.
  assert (listed name = false) as Hl by (unfold listed; now rewrite Hdot, andb_false_r).
  split; [|split; [|split]].
  - destruct (buildIndex_expanded (Some entries)) as (before & after & T & E).
    exists before, after, (indexFiles (Some entries)).
    split; [exact T|]. split; [apply indexFiles_perm|]. split; [|exact E].
    intro Hin. apply indexFiles_listed in Hin. congruence.
  - unfold buildIndex, indexParts, indexFiles, readdirSync.
    now rewrite (@filter_hidden name entries Hl).
  - exists (respond 200 content (lit "text/plain; charset=utf-8")).
    split; [|repeat split].
    rewrite (handler_dot_name (Some entries) _ Hdot Hurl).
    destruct (startsWith_dot _ Hdot) as (s' & E).
    rewrite dispatch_raw by (assumption || (rewrite E; discriminate)).
    now rewrite (basename_plain Hslash), Hfile.
  - intros stem url' Hname Hstem Hend Hurl'.
    exists (respond 200
              (replace (lit "CONTENT") (escapeHtml content)
                 (replace (lit "TITLE") (escapeHtml stem) HTML_TEMPLATE))
              (lit "text/html")).
    split; [|repeat split].
    assert (noSlash stem) as Hs.
    { unfold noSlash in *. rewrite Hname, forallb_app in Hslash.
      apply andb_true_iff in Hslash. tauto. }
    assert (startsWith (lit ".") stem = true) as Hdot'.
    { destruct stem as [|c s']; [congruence|].
      destruct (startsWith_dot _ Hdot) as (t & Ht). rewrite Hname in Ht.
      inversion Ht. reflexivity. }
    rewrite (handler_dot_name (Some entries) _ Hdot' Hurl').
    rewrite dispatch_rendered by assumption.
    now rewrite (basename_plain Hs), <- Hname, Hfile.
Qed.

Lemma hidden_file_excluded_and_served_witness :
  let entries := [(lit ".hidden.md", File (lit "secret")); (lit "notes.md", File [])] in
  readFileSync (Some entries) (lit ".hidden.md") = Normal (lit "secret")
  /\ buildIndex (Some entries) = buildIndex (Some [(lit "notes.md", File [])])
  /\ exists r,
       handler (Some entries) (lit "/.hidden.md") = Normal r
       /\ statusCode r = 200%N
       /\ contentType r = lit "text/plain; charset=utf-8"
       /\ body r = lit "secret"
       /\ contentLength r = 6.
Proof.
  intro entries. split; [reflexivity|].
  destruct (@hidden_file_excluded_and_served entries (lit ".hidden.md") (lit "secret")
              (lit "/.hidden.md") eq_refl eq_refl eq_refl eq_refl eq_refl)
    as (_ & Hsame & Hraw & _).
  split; [exact Hsame|exact Hraw].
Defined.

(** *** Names outside the grammar *)


